(** * srslte/common/byte_buffer.h: packet buffers with headroom

    A shallow embedding of [buffer_latency_calc], [byte_buffer_t] and
    [bit_buffer_t] and the properties of their public interface.

    Conventions of the embedding.
    - [uint32_t] values are integers in [Z]; every place where the C++
      arithmetic wraps is written with [to_uint32] (or [to_size_t]).
    - The in-struct array [uint8_t buffer[N]] is a [list byte]; its
      declared size is a typing condition ([length (buffer b) = N]).
    - The pointer [msg] always points into [buffer]; it is kept as the
      offset [msg - buffer].
    - [memcpy] and [std::fill] write cell by cell.  The classes test no
      bound, so a copy can run past the end of [buffer].  The members
      declared behind the array ([msg], and [md] in the byte buffer) are
      then overwritten with bytes of the copy, and what they hold
      afterwards depends on the layout of the object: such a call ends
      in the outcome [WriteOverrun], which keeps what the call still
      determines ([N_bytes], declared before the array, and the cells
      of the array) and says nothing on the other members.  A copy that
      reads past the end of the source's array ends in [ReadOverrun].
      Only a call whose reads and writes all stay inside the arrays
      ends in [Done] with the object it leaves.
    - A constructor receives the indeterminate initial contents of the
      array as the argument [mem]. *)

From Stdlib Require Import ZArith Lia.
From stdpp Require Import base list gmap.

Local Open Scope Z_scope.

(** [uint8_t]. *)
Abbreviation byte := Byte.byte.

(** ** Constants of the build *)

(** The three macros come from [common.h], which is not part of the
    sources at hand, so they are parameters of the development.  The last
    field is the number of ticks of [std::chrono::high_resolution_clock]
    per microsecond, which the C++ library fixes. *)
Class build_config := {
  SRSLTE_MAX_BUFFER_SIZE_BYTES : Z;
  SRSLTE_MAX_BUFFER_SIZE_BITS : Z;
  SRSLTE_BUFFER_HEADER_OFFSET : Z;
  clock_ticks_per_us : Z
}.

(** What every sensible build satisfies: the header offset lies inside
    both arrays and the array sizes are representable in 32 bits. *)
Record config_ok `{build_config} : Prop := {
  header_offset_nonneg : 0 <= SRSLTE_BUFFER_HEADER_OFFSET;
  header_offset_bytes : SRSLTE_BUFFER_HEADER_OFFSET <= SRSLTE_MAX_BUFFER_SIZE_BYTES;
  header_offset_bits : SRSLTE_BUFFER_HEADER_OFFSET <= SRSLTE_MAX_BUFFER_SIZE_BITS;
  max_bytes_uint32 : SRSLTE_MAX_BUFFER_SIZE_BYTES < 2 ^ 32;
  max_bits_uint32 : SRSLTE_MAX_BUFFER_SIZE_BITS < 2 ^ 32
}.

(** Modelled from the spec: the values of the macros of [common.h] are
    missing; the scenario of the specification (default margin 64,
    capacity 1500) supplies a concrete build, used for the worked
    examples. *)
Definition scenario_config : build_config := {|
  SRSLTE_MAX_BUFFER_SIZE_BYTES := 1500;
  SRSLTE_MAX_BUFFER_SIZE_BITS := 12000;
  SRSLTE_BUFFER_HEADER_OFFSET := 64;
  clock_ticks_per_us := 1000
|}.

(** An array of the scenario's capacity, all cells zero. *)
Definition scenario_memory : list byte := replicate 1500 Byte.x00.

(** ** Machine integers and raw memory *)

Definition to_uint32 (z : Z) : Z := z mod 2 ^ 32.
Definition to_size_t (z : Z) : Z := z mod 2 ^ 64.

Definition is_uint32 (z : Z) : Prop := 0 <= z < 2 ^ 32.

(** The tick counts of [std::chrono] are signed 64-bit integers; a
    difference that leaves the range wraps. *)
Definition to_int64 (z : Z) : Z := (z + 2 ^ 63) mod 2 ^ 64 - 2 ^ 63.
Definition is_int64 (z : Z) : Prop := - 2 ^ 63 <= z < 2 ^ 63.

(** How a call that copies into [buffer] ends. *)
Inductive outcome (A : Type) : Type :=
| Done (x : A)
    (* every read and write stayed inside the arrays *)
| WriteOverrun (n : Z) (a : list byte)
    (* the copy ran past the end of [buffer]: the length member is [n],
       the cells of the array are [a], the members behind the array
       were overwritten *)
| ReadOverrun.
    (* the copy read past the end of the source's array *)
Arguments Done {A} x.
Arguments WriteOverrun {A} n a.
Arguments ReadOverrun {A}.

(** Sequencing: the calls after an overrun are not followed. *)
Definition and_then {A B : Type} (o : outcome A) (f : A -> outcome B) : outcome B :=
  match o with
  | Done x => f x
  | WriteOverrun n a => WriteOverrun n a
  | ReadOverrun => ReadOverrun
  end.

(** [memcpy (dst + pos, src, length src)] on the array [dst]. *)
Fixpoint memcpy (dst : list byte) (pos : nat) (src : list byte) : list byte :=
  match src with
  | [] => dst
  | x :: src' => memcpy (<[pos := x]> dst) (S pos) src'
  end.

(** The [n] cells of the array [a] from offset [pos] on: what a read of
    [n] bytes through a pointer [a + pos] sees of the array. *)
Definition cells (a : list byte) (pos n : Z) : list byte :=
  take (Z.to_nat n) (drop (Z.to_nat pos) a).

(** ** buffer_latency_calc *)

Record buffer_latency_calc := {
  tp : Z;                    (* time_point, in clock ticks since the epoch *)
  timestamp_is_set : bool
}.

Module latency.
Section with_config.
Context `{build_config}.

(** The default member initialisers. *)
Definition init : buffer_latency_calc :=
  {| tp := 0; timestamp_is_set := false |}.

Definition clear (t : buffer_latency_calc) : buffer_latency_calc :=
  {| tp := tp t; timestamp_is_set := false |}.

(** [now] is the reading of the clock at the call; the difference of
    the two tick counts is a signed 64-bit value; [duration_cast]
    truncates towards zero. *)
Definition get_latency_us (now : Z) (t : buffer_latency_calc) : Z :=
  if negb (timestamp_is_set t) then 0
  else Z.quot (to_int64 (now - tp t)) clock_ticks_per_us.

Definition get_timestamp (t : buffer_latency_calc) : Z := tp t.

Definition set_timestamp (now : Z) (t : buffer_latency_calc) : buffer_latency_calc :=
  {| tp := now; timestamp_is_set := true |}.

Definition set_timestamp_at (tp_ : Z) (t : buffer_latency_calc) : buffer_latency_calc :=
  {| tp := tp_; timestamp_is_set := true |}.
End with_config.
End latency.

(** ** byte_buffer_t *)

Module byte_buffer.

Record buffer_metadata_t := {
  pdcp_sn : Z;
  md_tp : buffer_latency_calc      (* the member [tp] *)
}.

Record byte_buffer_t := {
  N_bytes : Z;
  buffer : list byte;
  msg : Z;                         (* [msg - buffer] *)
  md : buffer_metadata_t
}.

(** [md = {}] and the default member initialisers of [buffer_metadata_t]. *)
Definition md_init : buffer_metadata_t :=
  {| pdcp_sn := 0; md_tp := latency.init |}.

Section with_config.
Context `{build_config}.

(** [sizeof(buffer)]. *)
Definition sizeof_buffer : Z := SRSLTE_MAX_BUFFER_SIZE_BYTES.

(** [byte_buffer_t()] *)
Definition byte_buffer_t_default (mem : list byte) : byte_buffer_t :=
  {| N_bytes := 0;
     buffer := mem;
     msg := SRSLTE_BUFFER_HEADER_OFFSET;
     md := md_init |}.

(** [explicit byte_buffer_t(uint32_t size)] *)
Definition byte_buffer_t_size (mem : list byte) (size : Z) : byte_buffer_t :=
  {| N_bytes := size;
     buffer := mem;
     msg := SRSLTE_BUFFER_HEADER_OFFSET;
     md := md_init |}.

(** The members after [byte_buffer_t(uint32_t size, uint8_t val)], which
    delegates to the previous constructor and then runs
    [std::fill(msg, msg + N_bytes, val)]; the fill is taken to stay
    inside the array. *)
Definition byte_buffer_t_fill_body (mem : list byte) (size : Z) (val : byte) : byte_buffer_t :=
  let b := byte_buffer_t_size mem size in
  {| N_bytes := N_bytes b;
     buffer := memcpy (buffer b) (Z.to_nat (msg b)) (replicate (Z.to_nat (N_bytes b)) val);
     msg := msg b;
     md := md b |}.

(** [byte_buffer_t(uint32_t size, uint8_t val)]. *)
Definition byte_buffer_t_fill (mem : list byte) (size : Z) (val : byte)
  : outcome byte_buffer_t :=
  let b := byte_buffer_t_fill_body mem size val in
  if decide (SRSLTE_BUFFER_HEADER_OFFSET + size <= sizeof_buffer) then Done b
  else WriteOverrun (N_bytes b) (buffer b).

(** The members after [byte_buffer_t(const byte_buffer_t& buf)]:
    [memcpy(msg, buf.msg, N_bytes)] after the member initialisers, the
    copy taken to stay inside both arrays. *)
Definition byte_buffer_t_copy_body (mem : list byte) (buf : byte_buffer_t) : byte_buffer_t :=
  {| N_bytes := N_bytes buf;
     buffer := memcpy mem (Z.to_nat SRSLTE_BUFFER_HEADER_OFFSET)
                 (cells (buffer buf) (msg buf) (N_bytes buf));
     msg := SRSLTE_BUFFER_HEADER_OFFSET;
     md := md buf |}.

(** [byte_buffer_t(const byte_buffer_t& buf)]: the [N_bytes] bytes are
    read from [buf.msg] on and written from the header offset on. *)
Definition byte_buffer_t_copy (mem : list byte) (buf : byte_buffer_t)
  : outcome byte_buffer_t :=
  let b := byte_buffer_t_copy_body mem buf in
  if decide (0 <= msg buf /\ msg buf + N_bytes buf <= sizeof_buffer) then
    if decide (SRSLTE_BUFFER_HEADER_OFFSET + N_bytes buf <= sizeof_buffer) then Done b
    else WriteOverrun (N_bytes b) (buffer b)
  else ReadOverrun.

(** The members after the body of [operator=] past the self-assignment
    test, for two distinct objects, the copy taken to stay inside both
    arrays. *)
Definition assign_from_body (this buf : byte_buffer_t) : byte_buffer_t :=
  {| N_bytes := N_bytes buf;
     buffer := memcpy (buffer this) (Z.to_nat SRSLTE_BUFFER_HEADER_OFFSET)
                 (cells (buffer buf) (msg buf) (N_bytes buf));
     msg := SRSLTE_BUFFER_HEADER_OFFSET;
     md := md buf |}.

(** The body of [operator=] past the self-assignment test. *)
Definition assign_from (this buf : byte_buffer_t) : outcome byte_buffer_t :=
  let b := assign_from_body this buf in
  if decide (0 <= msg buf /\ msg buf + N_bytes buf <= sizeof_buffer) then
    if decide (SRSLTE_BUFFER_HEADER_OFFSET + N_bytes buf <= sizeof_buffer) then Done b
    else WriteOverrun (N_bytes b) (buffer b)
  else ReadOverrun.

(** [operator=] on objects in a store: [this] and [buf] are the addresses
    of the two objects, and [&buf == this] compares them.  There is no
    store afterwards ([None]) when an address holds no object or when
    the copy overruns an array. *)
Definition operator_assign (h : gmap positive byte_buffer_t) (this buf : positive)
  : option (gmap positive byte_buffer_t) :=
  t ← h !! this;
  s ← h !! buf;
  if decide (buf = this) then Some h
  else match assign_from t s with
       | Done c => Some (<[this := c]> h)
       | _ => None
       end.

Definition clear (b : byte_buffer_t) : byte_buffer_t :=
  {| N_bytes := 0;
     buffer := buffer b;
     msg := SRSLTE_BUFFER_HEADER_OFFSET;
     md := md_init |}.

(** [uint32_t get_headroom() { return msg - buffer; }] *)
Definition get_headroom (b : byte_buffer_t) : Z := to_uint32 (msg b).

(** [return (sizeof(buffer) - (msg - buffer) - N_bytes);] computed in
    [size_t] and converted to the [uint32_t] result. *)
Definition get_tailroom (b : byte_buffer_t) : Z :=
  to_uint32 (to_size_t (to_size_t (sizeof_buffer - msg b) - N_bytes b)).

Definition get_latency_us (now : Z) (b : byte_buffer_t) : Z :=
  latency.get_latency_us now (md_tp (md b)).

Definition get_timestamp (b : byte_buffer_t) : Z :=
  latency.get_timestamp (md_tp (md b)).

Definition with_md_tp (b : byte_buffer_t) (t : buffer_latency_calc) : byte_buffer_t :=
  {| N_bytes := N_bytes b;
     buffer := buffer b;
     msg := msg b;
     md := {| pdcp_sn := pdcp_sn (md b); md_tp := t |} |}.

Definition set_timestamp (now : Z) (b : byte_buffer_t) : byte_buffer_t :=
  with_md_tp b (latency.set_timestamp now (md_tp (md b))).

Definition set_timestamp_at (tp_ : Z) (b : byte_buffer_t) : byte_buffer_t :=
  with_md_tp b (latency.set_timestamp_at tp_ (md_tp (md b))).

(** The members after [append_bytes(uint8_t* buf, uint32_t size)], the
    copy taken to stay inside the array: the argument is the list of
    the [size] bytes at [buf]; [N_bytes += size] wraps at 32 bits. *)
Definition append_bytes_body (b : byte_buffer_t) (bytes : list byte) : byte_buffer_t :=
  {| N_bytes := to_uint32 (N_bytes b + Z.of_nat (length bytes));
     buffer := memcpy (buffer b) (Z.to_nat (msg b + N_bytes b)) bytes;
     msg := msg b;
     md := md b |}.

(** [append_bytes(uint8_t* buf, uint32_t size)]:
    [memcpy(&msg[N_bytes], buf, size); N_bytes += size;]
    A copy of no bytes writes nothing, wherever it points. *)
Definition append_bytes (b : byte_buffer_t) (bytes : list byte)
  : outcome byte_buffer_t :=
  let b' := append_bytes_body b bytes in
  if decide (length bytes = 0%nat \/
             msg b + N_bytes b + Z.of_nat (length bytes) <= sizeof_buffer)
  then Done b'
  else WriteOverrun (N_bytes b') (buffer b').

(** [data()], [size()] and [make_span]: the span [{msg, N_bytes}] and the
    cells of the array seen through it. *)
Definition data (b : byte_buffer_t) : Z := msg b.
Definition size (b : byte_buffer_t) : Z := N_bytes b.
Definition make_span (b : byte_buffer_t) : Z * Z := (msg b, N_bytes b).
Definition valid_bytes (b : byte_buffer_t) : list byte :=
  cells (buffer b) (msg b) (N_bytes b).

(** [begin()] and [end()]: the iterators, as offsets into the array. *)
Definition begin (b : byte_buffer_t) : Z := msg b.
Definition end_ (b : byte_buffer_t) : Z := msg b + N_bytes b.

(** *** Typing and the invariant of the data model *)

(** What the C++ types give: the array has its declared size, [N_bytes]
    is a [uint32_t], and [msg] points into the array (or one past it). *)
Record well_typed (b : byte_buffer_t) : Prop := {
  wt_buffer : length (buffer b) = Z.to_nat sizeof_buffer;
  wt_N_bytes : is_uint32 (N_bytes b);
  wt_msg : 0 <= msg b <= sizeof_buffer
}.

(** [0 <= headroom_offset] and [headroom_offset + length <= capacity]. *)
Definition invariant (b : byte_buffer_t) : Prop :=
  0 <= msg b /\ msg b + N_bytes b <= sizeof_buffer.

(** *** States and runs of the public interface *)

(** The data members [N_bytes], [buffer], [msg] and [md.pdcp_sn] are
    public: a caller may store into them (this is how header space is
    taken from the headroom).  The stored values respect the C++ types. *)
Definition store_members (b : byte_buffer_t) (n : Z) (a : list byte) (p sn : Z)
  : byte_buffer_t :=
  {| N_bytes := n;
     buffer := a;
     msg := p;
     md := {| pdcp_sn := sn; md_tp := md_tp (md b) |} |}.

(** The states a [byte_buffer_t] object can be in: the results of the
    constructors, closed under the member functions and under stores to
    the public members, along calls that stay inside the arrays. *)
Inductive reachable : byte_buffer_t -> Prop :=
| reach_default mem :
    length mem = Z.to_nat sizeof_buffer ->
    reachable (byte_buffer_t_default mem)
| reach_size mem size :
    length mem = Z.to_nat sizeof_buffer -> is_uint32 size ->
    reachable (byte_buffer_t_size mem size)
| reach_fill mem size val b :
    length mem = Z.to_nat sizeof_buffer -> is_uint32 size ->
    byte_buffer_t_fill mem size val = Done b ->
    reachable b
| reach_copy mem buf b :
    length mem = Z.to_nat sizeof_buffer -> reachable buf ->
    byte_buffer_t_copy mem buf = Done b ->
    reachable b
| reach_assign this buf b :
    reachable this -> reachable buf ->
    assign_from this buf = Done b ->
    reachable b
| reach_clear b :
    reachable b -> reachable (clear b)
| reach_append b bytes b' :
    reachable b -> is_uint32 (Z.of_nat (length bytes)) ->
    append_bytes b bytes = Done b' ->
    reachable b'
| reach_set_timestamp b now :
    reachable b -> reachable (set_timestamp now b)
| reach_set_timestamp_at b tp_ :
    reachable b -> reachable (set_timestamp_at tp_ b)
| reach_store b n a p sn :
    reachable b -> is_uint32 n -> length a = Z.to_nat sizeof_buffer ->
    0 <= p <= sizeof_buffer -> is_uint32 sn ->
    reachable (store_members b n a p sn).

(** One call on an existing object. *)
Inductive op :=
| Clear
| Append (bytes : list byte)
| Assign (buf : byte_buffer_t)
| SetTimestamp (now : Z).

Definition run_op (b : byte_buffer_t) (o : op) : outcome byte_buffer_t :=
  match o with
  | Clear => Done (clear b)
  | Append bytes => append_bytes b bytes
  | Assign buf => assign_from b buf
  | SetTimestamp now => Done (set_timestamp now b)
  end.

Fixpoint run (b : byte_buffer_t) (ops : list op) : outcome byte_buffer_t :=
  match ops with
  | [] => Done b
  | o :: ops' => and_then (run_op b o) (fun b' => run b' ops')
  end.

(** The sizes of a call are within what the buffer can take: the
    precondition the callers have to establish, as no member function
    tests it. *)
Definition op_fits (b : byte_buffer_t) (o : op) : Prop :=
  match o with
  | Clear => True
  | Append bytes => Z.of_nat (length bytes) <= get_tailroom b
  | Assign buf =>
      is_uint32 (N_bytes buf) /\ invariant buf /\
      N_bytes buf <= sizeof_buffer - SRSLTE_BUFFER_HEADER_OFFSET
  | SetTimestamp _ => True
  end.

(** Every call of the sequence fits the state it is made in. *)
Fixpoint ops_fit (b : byte_buffer_t) (ops : list op) : Prop :=
  match ops with
  | [] => True
  | o :: ops' =>
      op_fits b o /\ forall b', run_op b o = Done b' -> ops_fit b' ops'
  end.

(** Appending the chunks of a list in turn. *)
Fixpoint append_all (b : byte_buffer_t) (xs : list (list byte)) : outcome byte_buffer_t :=
  match xs with
  | [] => Done b
  | x :: xs' => and_then (append_bytes b x) (fun b' => append_all b' xs')
  end.

End with_config.
End byte_buffer.

(** ** bit_buffer_t *)

Module bit_buffer.

Record bit_buffer_t := {
  N_bits : Z;
  buffer : list byte;              (* one [uint8_t] cell per bit *)
  msg : Z                          (* [msg - buffer] *)
}.

Section with_config.
Context `{build_config}.

Definition sizeof_buffer : Z := SRSLTE_MAX_BUFFER_SIZE_BITS.

(** [bit_buffer_t()] *)
Definition bit_buffer_t_default (mem : list byte) : bit_buffer_t :=
  {| N_bits := 0; buffer := mem; msg := SRSLTE_BUFFER_HEADER_OFFSET |}.

(** The members after [bit_buffer_t(const bit_buffer_t& buf)], the copy
    taken to stay inside both arrays. *)
Definition bit_buffer_t_copy_body (mem : list byte) (buf : bit_buffer_t) : bit_buffer_t :=
  {| N_bits := N_bits buf;
     buffer := memcpy mem (Z.to_nat SRSLTE_BUFFER_HEADER_OFFSET)
                 (cells (buffer buf) (msg buf) (N_bits buf));
     msg := SRSLTE_BUFFER_HEADER_OFFSET |}.

(** [bit_buffer_t(const bit_buffer_t& buf)] *)
Definition bit_buffer_t_copy (mem : list byte) (buf : bit_buffer_t)
  : outcome bit_buffer_t :=
  let b := bit_buffer_t_copy_body mem buf in
  if decide (0 <= msg buf /\ msg buf + N_bits buf <= sizeof_buffer) then
    if decide (SRSLTE_BUFFER_HEADER_OFFSET + N_bits buf <= sizeof_buffer) then Done b
    else WriteOverrun (N_bits b) (buffer b)
  else ReadOverrun.

(** The members after the body of [operator=] past the self-assignment
    test, the copy taken to stay inside both arrays. *)
Definition assign_from_body (this buf : bit_buffer_t) : bit_buffer_t :=
  {| N_bits := N_bits buf;
     buffer := memcpy (buffer this) (Z.to_nat SRSLTE_BUFFER_HEADER_OFFSET)
                 (cells (buffer buf) (msg buf) (N_bits buf));
     msg := SRSLTE_BUFFER_HEADER_OFFSET |}.

(** The body of [operator=] past the self-assignment test. *)
Definition assign_from (this buf : bit_buffer_t) : outcome bit_buffer_t :=
  let b := assign_from_body this buf in
  if decide (0 <= msg buf /\ msg buf + N_bits buf <= sizeof_buffer) then
    if decide (SRSLTE_BUFFER_HEADER_OFFSET + N_bits buf <= sizeof_buffer) then Done b
    else WriteOverrun (N_bits b) (buffer b)
  else ReadOverrun.

(** [operator=] on a store of objects, as for the byte buffer. *)
Definition operator_assign (h : gmap positive bit_buffer_t) (this buf : positive)
  : option (gmap positive bit_buffer_t) :=
  t ← h !! this;
  s ← h !! buf;
  if decide (buf = this) then Some h
  else match assign_from t s with
       | Done c => Some (<[this := c]> h)
       | _ => None
       end.

Definition clear (b : bit_buffer_t) : bit_buffer_t :=
  {| N_bits := 0; buffer := buffer b; msg := SRSLTE_BUFFER_HEADER_OFFSET |}.

Definition get_headroom (b : bit_buffer_t) : Z := to_uint32 (msg b).

Definition valid_bits (b : bit_buffer_t) : list byte :=
  cells (buffer b) (msg b) (N_bits b).

(** The array has its declared size, [N_bits] is a [uint32_t], [msg]
    points into the array. *)
Record well_typed (b : bit_buffer_t) : Prop := {
  wt_buffer : length (buffer b) = Z.to_nat sizeof_buffer;
  wt_N_bits : is_uint32 (N_bits b);
  wt_msg : 0 <= msg b <= sizeof_buffer
}.

Definition invariant (b : bit_buffer_t) : Prop :=
  0 <= msg b /\ msg b + N_bits b <= sizeof_buffer.

End with_config.
End bit_buffer.

(** ** phy/fec/utils_avx512.h *)

Module avx512.

(** Number of packed bytes in an AVX512 instruction, and its [log2]. *)
Definition SRSLTE_AVX512_B_SIZE : Z := 64.
Definition SRSLTE_AVX512_B_SIZE_LOG : Z := 6.

End avx512.

(** ** Evaluation on concrete buffers *)

Ltac evaluate :=
  vm_compute; first [reflexivity | discriminate | intro; discriminate | lia].

(** The three typing conditions of a concrete byte buffer. *)
Ltac typed :=
  split; [reflexivity | split; evaluate | split; evaluate].

(** * Properties *)

(** ** Machine integers *)

Lemma to_uint32_id z : is_uint32 z -> to_uint32 z = z.
Proof. intros Hz. apply Z.mod_small. exact Hz. Qed.

Lemma to_uint32_range z : is_uint32 (to_uint32 z).
Proof. apply Z.mod_pos_bound. lia. Qed.

Lemma to_uint32_size_t z : to_uint32 (to_size_t z) = to_uint32 z.
Proof.
  unfold to_uint32, to_size_t.
  apply Z.mod_mod_divide. by exists (2 ^ 32).
Qed.

Lemma to_size_t_minus a b : to_size_t (to_size_t a - b) = to_size_t (a - b).
Proof. unfold to_size_t. apply Zminus_mod_idemp_l. Qed.

Lemma to_uint32_plus_l a b : to_uint32 (to_uint32 a + b) = to_uint32 (a + b).
Proof. unfold to_uint32. apply Zplus_mod_idemp_l. Qed.

Lemma to_uint32_plus_r a b : to_uint32 (a + to_uint32 b) = to_uint32 (a + b).
Proof. unfold to_uint32. apply Zplus_mod_idemp_r. Qed.

Lemma to_int64_id z : is_int64 z -> to_int64 z = z.
Proof.
  intros Hz. unfold to_int64, is_int64 in *. rewrite Z.mod_small; lia.
Qed.

(** ** memcpy *)

Example memcpy_inside :
  memcpy [Byte.x00; Byte.x00; Byte.x00; Byte.x00] 1 [Byte.x0a; Byte.x0b]
  = [Byte.x00; Byte.x0a; Byte.x0b; Byte.x00].
Proof. reflexivity. Qed.

Example memcpy_past_the_end :
  memcpy [Byte.x00; Byte.x00; Byte.x00; Byte.x00] 3 [Byte.x0a; Byte.x0b]
  = [Byte.x00; Byte.x00; Byte.x00; Byte.x0a].
Proof. reflexivity. Qed.

Lemma length_memcpy src : forall dst pos, length (memcpy dst pos src) = length dst.
Proof.
  induction src as [|x src IH]; intros dst pos; simpl; [reflexivity|].
  rewrite IH. apply length_insert.
Qed.

(** Two copies to adjacent places are one copy of the concatenation. *)
Lemma memcpy_app x : forall dst pos y,
  memcpy dst pos (x ++ y) = memcpy (memcpy dst pos x) (pos + length x)%nat y.
Proof.
  induction x as [|a x IH]; intros dst pos y; simpl.
  - by rewrite Nat.add_0_r.
  - rewrite IH. f_equal. lia.
Qed.

(** Cells below the destination are not touched. *)
Lemma memcpy_lookup_lt src : forall dst pos i,
  (i < pos)%nat -> memcpy dst pos src !! i = dst !! i.
Proof.
  induction src as [|x src IH]; intros dst pos i Hi; simpl; [reflexivity|].
  rewrite IH by lia. apply list_lookup_insert_ne. lia.
Qed.

(** Cells past the copied range are not touched. *)
Lemma memcpy_lookup_ge src : forall dst pos i,
  (pos + length src <= i)%nat -> memcpy dst pos src !! i = dst !! i.
Proof.
  induction src as [|x src IH]; intros dst pos i Hi; simpl in *; [reflexivity|].
  rewrite IH by lia. apply list_lookup_insert_ne. lia.
Qed.

(** A cell of the destination range that lies inside the array holds the
    source byte. *)
Lemma memcpy_lookup_in src : forall dst pos k x,
  src !! k = Some x -> (pos + k < length dst)%nat ->
  memcpy dst pos src !! (pos + k)%nat = Some x.
Proof.
  induction src as [|a src IH]; intros dst pos k x Hk Hlen; [done|].
  destruct k as [|k]; simpl in *.
  - injection Hk as ->. rewrite Nat.add_0_r in *.
    rewrite memcpy_lookup_lt by lia. by apply list_lookup_insert_eq.
  - replace (pos + S k)%nat with (S pos + k)%nat by lia.
    apply IH; [done|]. rewrite length_insert. lia.
Qed.

Lemma take_memcpy src dst pos : take pos (memcpy dst pos src) = take pos dst.
Proof.
  apply list_eq. intros i.
  destruct (decide (i < pos)%nat) as [Hi|Hi].
  - rewrite !lookup_take_lt by done. by apply memcpy_lookup_lt.
  - rewrite !lookup_take_ge by lia. done.
Qed.

(** Reading back a copy that fits in the array. *)
Lemma cells_memcpy src dst pos :
  (pos + length src <= length dst)%nat ->
  take (length src) (drop pos (memcpy dst pos src)) = src.
Proof.
  intros Hfit. apply list_eq. intros k.
  destruct (decide (k < length src)%nat) as [Hk|Hk].
  - rewrite lookup_take_lt, lookup_drop by done.
    destruct (lookup_lt_is_Some_2 src k Hk) as [x Hx].
    rewrite Hx. apply memcpy_lookup_in; [done|lia].
  - rewrite lookup_take_ge by lia. symmetry. apply lookup_ge_None. lia.
Qed.

(** ** buffer_latency_calc and the latency accessors *)

Section latency_facts.
Context `{C : build_config}.

Lemma get_latency_us_unset now t :
  timestamp_is_set t = false -> latency.get_latency_us now t = 0.
Proof. unfold latency.get_latency_us. by intros ->. Qed.

Lemma get_latency_us_set now t :
  timestamp_is_set t = true ->
  latency.get_latency_us now t = Z.quot (to_int64 (now - tp t)) clock_ticks_per_us.
Proof. unfold latency.get_latency_us. by intros ->. Qed.

(** C9. The latency query is a total function of the clock reading and
    the tracker, and it is zero on a tracker that holds no capture: on a
    tracker in its initial state, on any tracker after [clear()], and,
    for the tracker embedded in a byte buffer, in a buffer fresh from
    any of its three plain constructors (the filling one where its fill
    stays inside the array) and in any buffer after the buffer's
    [clear()]. *)
Theorem latency_zero_without_capture (now : Z) :
  latency.get_latency_us now latency.init = 0 /\
  (forall t, latency.get_latency_us now (latency.clear t) = 0) /\
  (forall t, timestamp_is_set t = false -> latency.get_latency_us now t = 0) /\
  (forall mem, byte_buffer.get_latency_us now (byte_buffer.byte_buffer_t_default mem) = 0) /\
  (forall mem size,
     byte_buffer.get_latency_us now (byte_buffer.byte_buffer_t_size mem size) = 0) /\
  (forall mem size val b,
     byte_buffer.byte_buffer_t_fill mem size val = Done b ->
     byte_buffer.get_latency_us now b = 0) /\
  (forall b, byte_buffer.get_latency_us now (byte_buffer.clear b) = 0).
Proof.
  split; [reflexivity|]. split; [reflexivity|].
  split; [intros; by apply get_latency_us_unset|].
  split; [reflexivity|]. split; [reflexivity|]. split; [|reflexivity].
  intros mem size val b. unfold byte_buffer.byte_buffer_t_fill.
  case_decide; [|done]. intros [= <-]. reflexivity.
Qed.

End latency_facts.

(** ** byte_buffer_t *)

Section byte_buffer_facts.
Import byte_buffer.
Context `{C : build_config}.

(** *** Headroom and tailroom *)

Lemma get_tailroom_eq b :
  get_tailroom b = to_uint32 (sizeof_buffer - msg b - N_bytes b).
Proof.
  unfold get_tailroom. by rewrite to_size_t_minus, to_uint32_size_t.
Qed.

Lemma get_headroom_typed b :
  config_ok -> well_typed b -> get_headroom b = msg b.
Proof.
  intros HC [_ _ Hmsg]. apply to_uint32_id.
  pose proof (max_bytes_uint32 HC). unfold is_uint32, sizeof_buffer in *. lia.
Qed.

Lemma get_tailroom_invariant b :
  config_ok -> well_typed b -> invariant b ->
  get_tailroom b = sizeof_buffer - msg b - N_bytes b.
Proof.
  intros HC [_ HN _] [Hmsg Hfit]. rewrite get_tailroom_eq. apply to_uint32_id.
  pose proof (max_bytes_uint32 HC). unfold is_uint32, sizeof_buffer in *. lia.
Qed.

(** *** Typing is kept by the whole interface *)

Lemma well_typed_append b bytes : well_typed b -> well_typed (append_bytes_body b bytes).
Proof.
  intros [Hlen HN Hmsg]. split; simpl.
  - by rewrite length_memcpy.
  - apply to_uint32_range.
  - done.
Qed.

Lemma well_typed_assign this buf :
  config_ok -> well_typed this -> well_typed buf -> well_typed (assign_from_body this buf).
Proof.
  intros HC [Hlen _ _] [_ HN _]. split; simpl.
  - by rewrite length_memcpy.
  - done.
  - pose proof (header_offset_nonneg HC). pose proof (header_offset_bytes HC).
    unfold sizeof_buffer. lia.
Qed.

(** *** When a call stays inside the arrays *)

Lemma append_bytes_Done b bytes :
  msg b + N_bytes b + Z.of_nat (length bytes) <= sizeof_buffer ->
  append_bytes b bytes = Done (append_bytes_body b bytes).
Proof. intros Hin. unfold append_bytes. by rewrite decide_True by (by right). Qed.

Lemma append_bytes_Done_inv b bytes b' :
  append_bytes b bytes = Done b' ->
  b' = append_bytes_body b bytes /\
  (length bytes = 0%nat \/
   msg b + N_bytes b + Z.of_nat (length bytes) <= sizeof_buffer).
Proof. unfold append_bytes. case_decide; [|done]. by intros [= <-]. Qed.

Lemma fill_Done mem size val :
  SRSLTE_BUFFER_HEADER_OFFSET + size <= sizeof_buffer ->
  byte_buffer_t_fill mem size val = Done (byte_buffer_t_fill_body mem size val).
Proof. intros Hin. unfold byte_buffer_t_fill. by rewrite decide_True. Qed.

Lemma fill_Done_inv mem size val b :
  byte_buffer_t_fill mem size val = Done b ->
  b = byte_buffer_t_fill_body mem size val /\
  SRSLTE_BUFFER_HEADER_OFFSET + size <= sizeof_buffer.
Proof. unfold byte_buffer_t_fill. case_decide; [|done]. by intros [= <-]. Qed.

Lemma copy_Done mem buf :
  0 <= msg buf -> msg buf + N_bytes buf <= sizeof_buffer ->
  SRSLTE_BUFFER_HEADER_OFFSET + N_bytes buf <= sizeof_buffer ->
  byte_buffer_t_copy mem buf = Done (byte_buffer_t_copy_body mem buf).
Proof.
  intros Hmsg Hread Hwrite. unfold byte_buffer_t_copy.
  rewrite decide_True by done. by rewrite decide_True.
Qed.

Lemma copy_Done_inv mem buf b :
  byte_buffer_t_copy mem buf = Done b ->
  b = byte_buffer_t_copy_body mem buf /\
  (0 <= msg buf /\ msg buf + N_bytes buf <= sizeof_buffer) /\
  SRSLTE_BUFFER_HEADER_OFFSET + N_bytes buf <= sizeof_buffer.
Proof.
  unfold byte_buffer_t_copy. case_decide; [|done]. case_decide; [|done].
  by intros [= <-].
Qed.

Lemma assign_Done this buf :
  0 <= msg buf -> msg buf + N_bytes buf <= sizeof_buffer ->
  SRSLTE_BUFFER_HEADER_OFFSET + N_bytes buf <= sizeof_buffer ->
  assign_from this buf = Done (assign_from_body this buf).
Proof.
  intros Hmsg Hread Hwrite. unfold assign_from.
  rewrite decide_True by done. by rewrite decide_True.
Qed.

Lemma assign_Done_inv this buf b :
  assign_from this buf = Done b ->
  b = assign_from_body this buf /\
  (0 <= msg buf /\ msg buf + N_bytes buf <= sizeof_buffer) /\
  SRSLTE_BUFFER_HEADER_OFFSET + N_bytes buf <= sizeof_buffer.
Proof.
  unfold assign_from. case_decide; [|done]. case_decide; [|done].
  by intros [= <-].
Qed.

Lemma reachable_well_typed b : config_ok -> reachable b -> well_typed b.
Proof.
  intros HC Hr.
  assert (Hoff : 0 <= SRSLTE_BUFFER_HEADER_OFFSET <= sizeof_buffer).
  { pose proof (header_offset_nonneg HC). pose proof (header_offset_bytes HC).
    unfold sizeof_buffer. lia. }
  induction Hr as [mem Hm|mem size Hm Hs|mem size val b Hm Hs Hd|mem buf b Hm Hr IH Hd
                  |this buf b Ht IHt Hb IHb Hd|b Hr IH|b bytes b' Hr IH Hs Hd
                  |b now Hr IH|b tp_ Hr IH|b n a p sn Hr IH Hn Ha Hp Hsn].
  - split; simpl; [done | unfold is_uint32; lia | done].
  - split; simpl; done.
  - apply fill_Done_inv in Hd as [-> _].
    split; simpl; [by rewrite length_memcpy | done | done].
  - apply copy_Done_inv in Hd as [-> _]. destruct IH as [_ HN _].
    split; simpl; [by rewrite length_memcpy | done | done].
  - apply assign_Done_inv in Hd as [-> _]. by apply well_typed_assign.
  - destruct IH as [Hlen _ _]. split; simpl; [done | unfold is_uint32; lia | done].
  - apply append_bytes_Done_inv in Hd as [-> _]. by apply well_typed_append.
  - destruct IH. split; simpl; done.
  - destruct IH. split; simpl; done.
  - split; simpl; done.
Qed.

(** C5, as the code has it. In every state a byte buffer can reach, the
    sum [get_headroom() + N_bytes + get_tailroom()] equals
    [sizeof(buffer)] modulo 2^32, that is, when evaluated as the C++
    expression over [uint32_t]; in the states that satisfy the
    invariant of the data model none of the three terms nor the sum
    wraps, and the three numbers add up to [sizeof(buffer)]. *)
Theorem headroom_length_tailroom (b : byte_buffer_t) :
  config_ok -> reachable b ->
  to_uint32 (to_uint32 (get_headroom b + N_bytes b) + get_tailroom b) = sizeof_buffer /\
  (invariant b -> get_headroom b + N_bytes b + get_tailroom b = sizeof_buffer).
Proof.
  intros HC Hr. pose proof (reachable_well_typed b HC Hr) as Hwt.
  rewrite (get_headroom_typed b HC Hwt). split.
  - rewrite get_tailroom_eq, to_uint32_plus_l, to_uint32_plus_r.
    replace (msg b + N_bytes b + (sizeof_buffer - msg b - N_bytes b))
      with sizeof_buffer by lia.
    apply to_uint32_id. pose proof (max_bytes_uint32 HC).
    pose proof (header_offset_nonneg HC). pose proof (header_offset_bytes HC).
    unfold is_uint32, sizeof_buffer. lia.
  - intros Hinv. rewrite (get_tailroom_invariant b HC Hwt Hinv). lia.
Qed.

(** *** Construction *)

Lemma invariant_size mem size :
  config_ok ->
  (invariant (byte_buffer_t_size mem size) <->
   size <= sizeof_buffer - SRSLTE_BUFFER_HEADER_OFFSET).
Proof.
  intros HC. pose proof (header_offset_nonneg HC).
  unfold invariant; simpl. lia.
Qed.

Lemma get_headroom_offset b :
  config_ok -> msg b = SRSLTE_BUFFER_HEADER_OFFSET ->
  get_headroom b = SRSLTE_BUFFER_HEADER_OFFSET.
Proof.
  intros HC Hmsg. unfold get_headroom. rewrite Hmsg. apply to_uint32_id.
  pose proof (header_offset_nonneg HC). pose proof (header_offset_bytes HC).
  pose proof (max_bytes_uint32 HC). unfold is_uint32. lia.
Qed.

(** C6. A buffer created with a size of at most the capacity less the
    default margin has that size as its length and the default margin as
    its headroom; so for [byte_buffer_t(size)], for
    [byte_buffer_t(size, val)], and, with size 0, for [byte_buffer_t()]. *)
Theorem create_length_headroom (mem : list byte) (size : Z) (val : byte) :
  config_ok ->
  0 <= size <= sizeof_buffer - SRSLTE_BUFFER_HEADER_OFFSET ->
  N_bytes (byte_buffer_t_size mem size) = size /\
  get_headroom (byte_buffer_t_size mem size) = SRSLTE_BUFFER_HEADER_OFFSET /\
  (exists b, byte_buffer_t_fill mem size val = Done b /\
     N_bytes b = size /\
     get_headroom b = SRSLTE_BUFFER_HEADER_OFFSET) /\
  N_bytes (byte_buffer_t_default mem) = 0 /\
  get_headroom (byte_buffer_t_default mem) = SRSLTE_BUFFER_HEADER_OFFSET.
Proof.
  intros HC Hsize.
  split; [reflexivity|]. split; [by apply get_headroom_offset|].
  split.
  - exists (byte_buffer_t_fill_body mem size val).
    split; [apply fill_Done; lia|]. split; [reflexivity|].
    by apply get_headroom_offset.
  - split; [reflexivity | by apply get_headroom_offset].
Qed.

(** C2, as the code has it. Construction tests nothing and cannot fail:
    for every 32-bit size the new buffer has that size as its length, at
    the default headroom, with default metadata and the array as it was;
    it satisfies the invariant of the data model exactly when the size
    is at most the capacity less the default margin. *)
Theorem create_unchecked (mem : list byte) (size : Z) :
  config_ok -> is_uint32 size ->
  N_bytes (byte_buffer_t_size mem size) = size /\
  msg (byte_buffer_t_size mem size) = SRSLTE_BUFFER_HEADER_OFFSET /\
  buffer (byte_buffer_t_size mem size) = mem /\
  md (byte_buffer_t_size mem size) = md_init /\
  (invariant (byte_buffer_t_size mem size) <->
   size <= sizeof_buffer - SRSLTE_BUFFER_HEADER_OFFSET).
Proof.
  intros HC Hsize. repeat (split; [reflexivity|]). by apply invariant_size.
Qed.

(** *** clear *)

(** C8. [clear()] puts [msg] back at the default margin, sets the length
    to 0 and the metadata to its default (sequence tag 0, no captured
    timestamp), and leaves the array as it is. *)
Theorem clear_resets (b : byte_buffer_t) :
  msg (clear b) = SRSLTE_BUFFER_HEADER_OFFSET /\
  N_bytes (clear b) = 0 /\
  pdcp_sn (md (clear b)) = 0 /\
  timestamp_is_set (md_tp (md (clear b))) = false /\
  md (clear b) = md_init /\
  buffer (clear b) = buffer b.
Proof. repeat split. Qed.

(** *** append_bytes *)

Lemma append_no_wrap b bytes :
  config_ok -> well_typed b -> invariant b ->
  Z.of_nat (length bytes) <= get_tailroom b ->
  N_bytes (append_bytes_body b bytes) = N_bytes b + Z.of_nat (length bytes) /\
  msg b + N_bytes b + Z.of_nat (length bytes) <= sizeof_buffer.
Proof.
  intros HC Hwt Hinv Hfit.
  rewrite (get_tailroom_invariant b HC Hwt Hinv) in Hfit.
  destruct Hwt as [_ HN _]. destruct Hinv as [Hmsg _].
  pose proof (max_bytes_uint32 HC).
  split; [|lia]. simpl. apply to_uint32_id.
  unfold is_uint32, sizeof_buffer in *. lia.
Qed.

Lemma invariant_append b bytes :
  config_ok -> well_typed b -> invariant b ->
  Z.of_nat (length bytes) <= get_tailroom b ->
  invariant (append_bytes_body b bytes).
Proof.
  intros HC Hwt Hinv Hfit.
  destruct (append_no_wrap b bytes HC Hwt Hinv Hfit) as [HN Hle].
  destruct Hinv as [Hmsg _]. unfold invariant. rewrite HN. simpl. lia.
Qed.

Lemma cells_memcpy_append (a : list byte) (p n : nat) src :
  (p + n + length src <= length a)%nat ->
  take (n + length src) (drop p (memcpy a (p + n) src)) = take n (drop p a) ++ src.
Proof.
  intros Hfit. apply list_eq. intros i.
  destruct (decide (i < n)%nat) as [Hi|Hi].
  - rewrite lookup_take_lt, lookup_drop by lia.
    rewrite lookup_app_l by (rewrite length_take, length_drop; lia).
    rewrite lookup_take_lt, lookup_drop by done.
    apply memcpy_lookup_lt. lia.
  - rewrite lookup_app_r by (rewrite length_take, length_drop; lia).
    rewrite length_take, length_drop, Nat.min_l by lia.
    destruct (decide (i - n < length src)%nat) as [Hk|Hk].
    + rewrite lookup_take_lt, lookup_drop by lia.
      destruct (lookup_lt_is_Some_2 src (i - n) Hk) as [x Hx]. rewrite Hx.
      replace (p + i)%nat with (p + n + (i - n))%nat by lia.
      apply memcpy_lookup_in; [done | lia].
    + rewrite lookup_take_ge by lia. symmetry. apply lookup_ge_None. lia.
Qed.

Lemma valid_bytes_append b bytes :
  config_ok -> well_typed b -> invariant b ->
  Z.of_nat (length bytes) <= get_tailroom b ->
  valid_bytes (append_bytes_body b bytes) = valid_bytes b ++ bytes.
Proof.
  intros HC Hwt Hinv Hfit.
  destruct (append_no_wrap b bytes HC Hwt Hinv Hfit) as [HN Hle].
  destruct Hwt as [Hlen [HN0 _] _]. destruct Hinv as [Hmsg _].
  unfold valid_bytes, cells. rewrite HN. simpl msg. simpl buffer.
  rewrite !Z2Nat.inj_add, Nat2Z.id by lia.
  apply cells_memcpy_append. rewrite Hlen. lia.
Qed.

Lemma append_fits_Done b bytes :
  config_ok -> well_typed b -> invariant b ->
  Z.of_nat (length bytes) <= get_tailroom b ->
  append_bytes b bytes = Done (append_bytes_body b bytes).
Proof.
  intros HC Hwt Hinv Hfit. apply append_bytes_Done.
  by destruct (append_no_wrap b bytes HC Hwt Hinv Hfit).
Qed.

Lemma tailroom_after_append b x :
  config_ok -> well_typed b -> invariant b ->
  Z.of_nat (length x) <= get_tailroom b ->
  get_tailroom (append_bytes_body b x) = get_tailroom b - Z.of_nat (length x) /\
  N_bytes (append_bytes_body b x) = N_bytes b + Z.of_nat (length x).
Proof.
  intros HC Hwt Hinv Hfit.
  destruct (append_no_wrap b x HC Hwt Hinv Hfit) as [HN _].
  assert (Hinv' := invariant_append b x HC Hwt Hinv Hfit).
  assert (Hwt' := well_typed_append b x Hwt).
  rewrite (get_tailroom_invariant _ HC Hwt' Hinv').
  rewrite (get_tailroom_invariant _ HC Hwt Hinv).
  rewrite HN. simpl. lia.
Qed.

Lemma append_bytes_body_app b x y :
  config_ok -> well_typed b -> invariant b ->
  Z.of_nat (length x) <= get_tailroom b ->
  append_bytes_body (append_bytes_body b x) y = append_bytes_body b (x ++ y).
Proof.
  intros HC Hwt Hinv Hx.
  destruct (append_no_wrap b x HC Hwt Hinv Hx) as [HN _].
  destruct Hwt as [_ [HN0 _] _]. destruct Hinv as [Hmsg _].
  unfold append_bytes_body at 1 3. f_equal.
  - rewrite HN, length_app, Nat2Z.inj_add. f_equal. lia.
  - rewrite memcpy_app. simpl msg. simpl buffer. f_equal. rewrite HN. lia.
Qed.

(** C7. On a buffer that satisfies the invariant, if [x] fits in the
    tailroom and [y] fits in the tailroom left after [x], appending [x]
    and then [y] leaves the very buffer that appending [x ++ y] at once
    leaves, so the same length and the same valid bytes: the former
    valid bytes followed by [x] and [y]. *)
Theorem append_append (b : byte_buffer_t) (x y : list byte) :
  config_ok -> well_typed b -> invariant b ->
  Z.of_nat (length x) <= get_tailroom b ->
  (forall b1, append_bytes b x = Done b1 -> Z.of_nat (length y) <= get_tailroom b1) ->
  exists b1 b2,
    append_bytes b x = Done b1 /\
    append_bytes b1 y = Done b2 /\
    append_bytes b (x ++ y) = Done b2 /\
    N_bytes b2 = N_bytes b + Z.of_nat (length x) + Z.of_nat (length y) /\
    valid_bytes b2 = valid_bytes b ++ x ++ y.
Proof.
  intros HC Hwt Hinv Hx Hy.
  pose proof (append_fits_Done b x HC Hwt Hinv Hx) as Hd1.
  specialize (Hy _ Hd1).
  pose proof (well_typed_append b x Hwt) as Hwt1.
  pose proof (invariant_append b x HC Hwt Hinv Hx) as Hinv1.
  destruct (tailroom_after_append b x HC Hwt Hinv Hx) as [Ht1 HN1].
  assert (Hxy : Z.of_nat (length (x ++ y)) <= get_tailroom b)
    by (rewrite length_app, Nat2Z.inj_add; lia).
  exists (append_bytes_body b x), (append_bytes_body b (x ++ y)).
  split; [exact Hd1|]. split.
  { rewrite <- (append_bytes_body_app b x y HC Hwt Hinv Hx).
    by apply append_fits_Done. }
  split; [by apply append_fits_Done|]. split.
  - destruct (tailroom_after_append b (x ++ y) HC Hwt Hinv Hxy) as [_ ->].
    rewrite length_app, Nat2Z.inj_add. lia.
  - by apply valid_bytes_append.
Qed.

(** C1, as the code has it. [append_bytes] tests nothing and has no way
    to refuse, whatever the count: the length becomes the old length
    plus the count (modulo 2^32); in the array, the cells below
    [msg + N_bytes] and those from [msg + N_bytes + count] on are
    unchanged, and every cell of the destination range that lies inside
    the array receives its byte.  When the destination range ends
    inside the array (or the count is 0), [msg] and the metadata stay as
    they are; when it ends past the array, the call is carried out all
    the same and the remaining bytes are written over the members
    behind the array.
    When the count is within the tailroom of a buffer that satisfies
    the invariant, the valid bytes become the former valid bytes
    followed by the appended ones and the invariant still holds. *)
Theorem append_unchecked (b : byte_buffer_t) (bytes : list byte) :
  well_typed b ->
  let pos := Z.to_nat (msg b + N_bytes b) in
  exists n' a',
    n' = to_uint32 (N_bytes b + Z.of_nat (length bytes)) /\
    length a' = length (buffer b) /\
    (forall i, (i < pos)%nat -> a' !! i = buffer b !! i) /\
    (forall i, (pos + length bytes <= i)%nat -> a' !! i = buffer b !! i) /\
    (forall k x, bytes !! k = Some x -> (pos + k < length (buffer b))%nat ->
       a' !! (pos + k)%nat = Some x) /\
    (length bytes = 0%nat \/
     msg b + N_bytes b + Z.of_nat (length bytes) <= sizeof_buffer ->
     append_bytes b bytes
     = Done {| N_bytes := n'; buffer := a'; msg := msg b; md := md b |}) /\
    ((0 < length bytes)%nat ->
     sizeof_buffer < msg b + N_bytes b + Z.of_nat (length bytes) ->
     append_bytes b bytes = WriteOverrun n' a') /\
    (config_ok -> well_typed b -> invariant b ->
     Z.of_nat (length bytes) <= get_tailroom b ->
     exists b', append_bytes b bytes = Done b' /\
       valid_bytes b' = valid_bytes b ++ bytes /\ invariant b').
Proof.
  intros _ pos.
  exists (N_bytes (append_bytes_body b bytes)), (buffer (append_bytes_body b bytes)).
  simpl. split; [reflexivity|].
  split; [apply length_memcpy|].
  split; [intros i Hi; by apply memcpy_lookup_lt|].
  split; [intros i Hi; by apply memcpy_lookup_ge|].
  split; [intros k x Hk Hlen; by apply memcpy_lookup_in|].
  split; [intros Hin; unfold append_bytes; by rewrite decide_True|].
  split.
  - intros Hne Hout. unfold append_bytes. by rewrite decide_False by lia.
  - intros HC Hwt Hinv Hfit. exists (append_bytes_body b bytes).
    split; [by apply append_fits_Done|]. split.
    + by apply valid_bytes_append.
    + by apply invariant_append.
Qed.

(** *** Copy construction and assignment *)

Lemma invariant_copy mem buf :
  config_ok -> N_bytes buf <= sizeof_buffer - SRSLTE_BUFFER_HEADER_OFFSET ->
  invariant (byte_buffer_t_copy_body mem buf).
Proof.
  intros HC Hfit. pose proof (header_offset_nonneg HC).
  unfold invariant; simpl. lia.
Qed.

Lemma invariant_assign this buf :
  config_ok -> N_bytes buf <= sizeof_buffer - SRSLTE_BUFFER_HEADER_OFFSET ->
  invariant (assign_from_body this buf).
Proof.
  intros HC Hfit. pose proof (header_offset_nonneg HC).
  unfold invariant; simpl. lia.
Qed.

Lemma length_cells_invariant buf :
  well_typed buf -> invariant buf ->
  length (valid_bytes buf) = Z.to_nat (N_bytes buf).
Proof.
  intros [Hlen [HN _] _] [Hmsg Hfit]. unfold valid_bytes, cells.
  rewrite length_take, length_drop, Hlen. lia.
Qed.

(** The copy of the valid bytes to the default margin can be read back
    when it fits there. *)
Lemma cells_copied (a : list byte) buf :
  config_ok -> length a = Z.to_nat sizeof_buffer ->
  well_typed buf -> invariant buf ->
  N_bytes buf <= sizeof_buffer - SRSLTE_BUFFER_HEADER_OFFSET ->
  cells (memcpy a (Z.to_nat SRSLTE_BUFFER_HEADER_OFFSET) (valid_bytes buf))
        SRSLTE_BUFFER_HEADER_OFFSET (N_bytes buf)
  = valid_bytes buf.
Proof.
  intros HC Ha Hwt Hinv Hfit.
  pose proof (length_cells_invariant buf Hwt Hinv) as Hl.
  pose proof (header_offset_nonneg HC).
  destruct Hwt as [_ [HN _] _].
  unfold cells at 1. rewrite <- Hl. apply cells_memcpy. rewrite Hl, Ha. lia.
Qed.

Lemma operator_assign_distinct
    (h : gmap positive byte_buffer_t) l_this l_buf this buf c :
  h !! l_this = Some this -> h !! l_buf = Some buf -> l_this <> l_buf ->
  assign_from this buf = Done c ->
  operator_assign h l_this l_buf = Some (<[l_this := c]> h).
Proof.
  intros Ht Hb Hne Hd. unfold operator_assign. rewrite Ht, Hb. simpl.
  rewrite decide_False by congruence. by rewrite Hd.
Qed.

Lemma operator_assign_self (h : gmap positive byte_buffer_t) l :
  is_Some (h !! l) -> operator_assign h l l = Some h.
Proof.
  intros [b Hb]. unfold operator_assign. rewrite Hb. simpl.
  by rewrite decide_True.
Qed.

(** C4, as the code has it. For a source that satisfies the invariant and
    whose length is at most the capacity less the default margin, the
    copy constructor, and the assignment to a distinct object, stay
    inside the arrays and give a buffer with the length, the valid
    bytes and the metadata of the source and with the default margin as
    headroom, whatever the headroom of the source; the assignment
    leaves the source as it is. *)
Theorem copy_normalises_headroom
    (mem : list byte) (h : gmap positive byte_buffer_t)
    (l_this l_buf : positive) (this buf : byte_buffer_t) :
  config_ok ->
  length mem = Z.to_nat sizeof_buffer ->
  well_typed this -> well_typed buf -> invariant buf ->
  N_bytes buf <= sizeof_buffer - SRSLTE_BUFFER_HEADER_OFFSET ->
  h !! l_this = Some this -> h !! l_buf = Some buf -> l_this <> l_buf ->
  (exists c,
     byte_buffer_t_copy mem buf = Done c /\
     N_bytes c = N_bytes buf /\
     valid_bytes c = valid_bytes buf /\
     md c = md buf /\
     get_headroom c = SRSLTE_BUFFER_HEADER_OFFSET) /\
  (exists h' c,
     operator_assign h l_this l_buf = Some h' /\
     h' !! l_this = Some c /\ h' !! l_buf = Some buf /\
     N_bytes c = N_bytes buf /\
     valid_bytes c = valid_bytes buf /\
     md c = md buf /\
     get_headroom c = SRSLTE_BUFFER_HEADER_OFFSET).
Proof.
  intros HC Hmem Hwt_this Hwt Hinv Hfit Ht Hb Hne.
  pose proof Hinv as [Hmsg Hread].
  split.
  - exists (byte_buffer_t_copy_body mem buf).
    split; [apply copy_Done; lia|]. repeat split.
    + exact (cells_copied mem buf HC Hmem Hwt Hinv Hfit).
    + by apply get_headroom_offset.
  - exists (<[l_this := assign_from_body this buf]> h), (assign_from_body this buf).
    split; [apply (operator_assign_distinct h l_this l_buf this buf);
              [done | done | done | apply assign_Done; lia]|].
    split; [apply lookup_insert_eq|].
    split; [by rewrite lookup_insert_ne|].
    repeat split.
    + destruct Hwt_this as [Hlen _ _].
      exact (cells_copied (buffer this) buf HC Hlen Hwt Hinv Hfit).
    + by apply get_headroom_offset.
Qed.

(** *** The invariant along the operations *)

Lemma invariant_default mem : config_ok -> invariant (byte_buffer_t_default mem).
Proof.
  intros HC. pose proof (header_offset_nonneg HC). pose proof (header_offset_bytes HC).
  unfold invariant, sizeof_buffer; simpl. lia.
Qed.

Lemma invariant_clear b : config_ok -> invariant (clear b).
Proof.
  intros HC. pose proof (header_offset_nonneg HC). pose proof (header_offset_bytes HC).
  unfold invariant, sizeof_buffer; simpl. lia.
Qed.

Lemma run_op_fits b o :
  config_ok -> well_typed b -> invariant b -> op_fits b o ->
  exists b', run_op b o = Done b' /\ well_typed b' /\ invariant b'.
Proof.
  intros HC Hwt Hinv Hfit.
  assert (Hoff : 0 <= SRSLTE_BUFFER_HEADER_OFFSET <= sizeof_buffer).
  { pose proof (header_offset_nonneg HC). pose proof (header_offset_bytes HC).
    unfold sizeof_buffer. lia. }
  destruct o as [|bytes|buf|now]; simpl in *.
  - exists (clear b). split; [done|]. split; [|by apply invariant_clear].
    destruct Hwt as [Hlen _ _]. split; simpl; [done | unfold is_uint32; lia | done].
  - exists (append_bytes_body b bytes).
    split; [by apply append_fits_Done|].
    split; [by apply well_typed_append | by apply invariant_append].
  - destruct Hfit as (HN & [Hmsg Hread] & Hfit).
    exists (assign_from_body b buf).
    split; [apply assign_Done; lia|]. split; [|by apply invariant_assign].
    destruct Hwt as [Hlen _ _].
    split; simpl; [by rewrite length_memcpy | done | done].
  - exists (set_timestamp now b). split; [done|]. split; [|exact Hinv].
    destruct Hwt. split; simpl; done.
Qed.

Lemma invariant_run ops : forall b,
  config_ok -> well_typed b -> invariant b -> ops_fit b ops ->
  exists b', run b ops = Done b' /\ well_typed b' /\ invariant b'.
Proof.
  induction ops as [|o ops IH]; intros b HC Hwt Hinv Hfit; simpl in *.
  - by exists b.
  - destruct Hfit as [Ho Hops].
    destruct (run_op_fits b o HC Hwt Hinv Ho) as (b1 & Hd & Hwt1 & Hinv1).
    rewrite Hd. simpl. apply IH; [done..|]. by apply Hops.
Qed.

(** C3, as the code has it. No operation tests a size, so the invariant
    is kept under the conditions the callers have to meet: it holds
    after default construction and after [clear()]; after construction
    with a size exactly when the size is at most the capacity less the
    default margin; under the same bound the filling constructor stays
    inside the array and leaves the invariant; [append_bytes] on a
    buffer that satisfies it, with a count within the tailroom, stays
    inside the array and keeps it; copy construction and assignment
    from a source that satisfies it and whose length is at most the
    capacity less the default margin stay inside the arrays and leave
    it; and hence every sequence of calls that meet these conditions
    runs to its end inside the arrays and leaves the invariant. *)
Theorem invariant_preserved_when_sizes_fit :
  config_ok ->
  (forall mem, invariant (byte_buffer_t_default mem)) /\
  (forall mem size,
     invariant (byte_buffer_t_size mem size) <->
     size <= sizeof_buffer - SRSLTE_BUFFER_HEADER_OFFSET) /\
  (forall mem size val,
     size <= sizeof_buffer - SRSLTE_BUFFER_HEADER_OFFSET ->
     exists b, byte_buffer_t_fill mem size val = Done b /\ invariant b) /\
  (forall b, invariant (clear b)) /\
  (forall b bytes,
     well_typed b -> invariant b -> Z.of_nat (length bytes) <= get_tailroom b ->
     exists b', append_bytes b bytes = Done b' /\ invariant b') /\
  (forall mem buf,
     invariant buf ->
     N_bytes buf <= sizeof_buffer - SRSLTE_BUFFER_HEADER_OFFSET ->
     exists c, byte_buffer_t_copy mem buf = Done c /\ invariant c) /\
  (forall this buf,
     invariant buf ->
     N_bytes buf <= sizeof_buffer - SRSLTE_BUFFER_HEADER_OFFSET ->
     exists c, assign_from this buf = Done c /\ invariant c) /\
  (forall b ops,
     well_typed b -> invariant b -> ops_fit b ops ->
     exists b', run b ops = Done b' /\ invariant b').
Proof.
  intros HC.
  split; [intros; by apply invariant_default|].
  split; [intros; by apply invariant_size|].
  split.
  { intros mem size val Hsize. exists (byte_buffer_t_fill_body mem size val).
    split; [apply fill_Done; lia|].
    by apply (invariant_size mem size HC). }
  split; [intros; by apply invariant_clear|].
  split.
  { intros b bytes Hwt Hinv Hfit. exists (append_bytes_body b bytes).
    split; [by apply append_fits_Done | by apply invariant_append]. }
  split.
  { intros mem buf [Hmsg Hread] Hfit. exists (byte_buffer_t_copy_body mem buf).
    split; [apply copy_Done; lia | by apply invariant_copy]. }
  split.
  { intros this buf [Hmsg Hread] Hfit. exists (assign_from_body this buf).
    split; [apply assign_Done; lia | by apply invariant_assign]. }
  intros b ops Hwt Hinv Hfit.
  destruct (invariant_run ops b HC Hwt Hinv Hfit) as (b' & Hd & _ & Hinv').
  by exists b'.
Qed.

End byte_buffer_facts.

(** ** Self-assignment *)

Section self_assignment.
Context `{C : build_config}.

Lemma bit_operator_assign_self (h : gmap positive bit_buffer.bit_buffer_t) l :
  is_Some (h !! l) -> bit_buffer.operator_assign h l l = Some h.
Proof.
  intros [b Hb]. unfold bit_buffer.operator_assign. rewrite Hb. simpl.
  by rewrite decide_True.
Qed.

(** C10. Assigning a byte buffer or a bit buffer to itself returns at
    the address test: the store of objects is the same afterwards, so
    the object has the same length, [msg], array and (byte buffer)
    metadata as before. *)
Theorem self_assignment_noop
    (hb : gmap positive byte_buffer.byte_buffer_t) (lb : positive)
    (b : byte_buffer.byte_buffer_t)
    (hi : gmap positive bit_buffer.bit_buffer_t) (li : positive)
    (i : bit_buffer.bit_buffer_t) :
  hb !! lb = Some b -> hi !! li = Some i ->
  (exists hb',
     byte_buffer.operator_assign hb lb lb = Some hb' /\ hb' = hb /\
     hb' !! lb = Some b) /\
  (exists hi',
     bit_buffer.operator_assign hi li li = Some hi' /\ hi' = hi /\
     hi' !! li = Some i).
Proof.
  intros Hb Hi. split.
  - exists hb. split; [|done]. apply operator_assign_self. by exists b.
  - exists hi. split; [|done]. apply bit_operator_assign_self. by exists i.
Qed.

End self_assignment.

(** * The scenario build: capacity 1500, default margin 64 *)

Section scenario.
Local Existing Instance scenario_config.
Import byte_buffer.

Lemma scenario_config_ok : config_ok.
Proof. split; vm_compute; congruence. Qed.

Lemma scenario_memory_length : length scenario_memory = Z.to_nat sizeof_buffer.
Proof. reflexivity. Qed.

(** C1, the claim as stated does not hold. A buffer of length 1430 at
    the default margin has a tailroom of 6. Appending 10 bytes to it is
    carried out and runs past the array: the length becomes 1440 and
    the last six cells of the array, 1494 to 1499, are overwritten. *)
Lemma append_overrun_counterexample :
  let b := byte_buffer_t_size scenario_memory 1430 in
  let bytes := replicate 10 Byte.xff in
  well_typed b /\ invariant b /\
  get_tailroom b = 6 /\
  Z.of_nat (length bytes) > get_tailroom b /\
  N_bytes b = 1430 /\
  buffer b !! 1494%nat = Some Byte.x00 /\
  exists a,
    append_bytes b bytes = WriteOverrun 1440 a /\
    a !! 1494%nat = Some Byte.xff /\
    a <> buffer b.
Proof.
  cbv zeta. split; [typed|]. split; [split; evaluate|].
  do 4 (split; [evaluate|]).
  exists (memcpy scenario_memory 1494 (replicate 10 Byte.xff)).
  split; [evaluate|]. split; [evaluate|].
  intros Heq. apply (f_equal (fun a => a !! 1494%nat)) in Heq.
  vm_compute in Heq. discriminate.
Qed.

(** C2, the claim as stated does not hold. Construction with size 1500,
    more than the 1436 bytes that fit after the default margin, yields a
    buffer of length 1500 at offset 64, past the end of the array. *)
Lemma create_oversize_counterexample :
  let b := byte_buffer_t_size scenario_memory 1500 in
  1500 > sizeof_buffer - SRSLTE_BUFFER_HEADER_OFFSET /\
  N_bytes b = 1500 /\
  get_headroom b = 64 /\
  get_headroom b + N_bytes b > sizeof_buffer /\
  ~ invariant b.
Proof.
  cbv zeta. do 4 (split; [evaluate|]).
  intros [_ Hfit]. vm_compute in Hfit. by apply Hfit.
Qed.

(** C3, the claim as stated does not hold. A buffer built with size
    1500 is a state of the interface outside the invariant. Nor do
    [append_bytes] and the copy constructor keep inside the array from
    a state within the invariant: appending 1437 bytes to the empty
    buffer, and copying a buffer whose 1500 valid bytes start at offset
    0, both run past the end of the array. *)
Lemma invariant_broken_counterexample :
  let b := byte_buffer_t_default scenario_memory in
  let bytes := replicate 1437 Byte.x01 in
  let src := store_members b 1500 scenario_memory 0 0 in
  (reachable (byte_buffer_t_size scenario_memory 1500) /\
   ~ invariant (byte_buffer_t_size scenario_memory 1500)) /\
  (well_typed b /\ invariant b /\
   exists a, append_bytes b bytes = WriteOverrun 1437 a) /\
  (well_typed src /\ invariant src /\
   exists a, byte_buffer_t_copy scenario_memory src = WriteOverrun 1500 a).
Proof.
  cbv zeta. split; [|split].
  - split; [apply reach_size; [reflexivity | split; evaluate]|].
    intros [_ Hfit]. vm_compute in Hfit. by apply Hfit.
  - split; [typed|]. split; [split; evaluate|].
    exists (memcpy scenario_memory 64 (replicate 1437 Byte.x01)). evaluate.
  - split; [typed|]. split; [split; evaluate|].
    exists (memcpy scenario_memory 64 scenario_memory). evaluate.
Qed.

(** C4, the claim as stated does not hold. A buffer whose header space
    has all been taken, with 1500 valid bytes from offset 0, satisfies
    the invariant. Copying it writes 1500 bytes from offset 64 on: the
    copy runs 64 bytes past the end of the new object's array, over its
    [msg] and [md]; no buffer with the headroom, metadata and valid
    bytes of the claim results. *)
Lemma copy_overrun_counterexample :
  let src :=
    store_members (byte_buffer_t_default scenario_memory)
      1500 (replicate 1500 Byte.xaa) 0 0 in
  reachable src /\ well_typed src /\ invariant src /\
  length (valid_bytes src) = 1500%nat /\
  SRSLTE_BUFFER_HEADER_OFFSET + N_bytes src - sizeof_buffer = 64 /\
  exists a,
    byte_buffer_t_copy scenario_memory src = WriteOverrun 1500 a /\
    a !! 64%nat = Some Byte.xaa /\ a !! 1499%nat = Some Byte.xaa.
Proof.
  cbv zeta. split.
  { apply reach_store; [by apply reach_default | split; evaluate | reflexivity
                       | split; evaluate | split; evaluate]. }
  split; [typed|]. split; [split; evaluate|].
  do 2 (split; [evaluate|]).
  exists (memcpy scenario_memory 64 (replicate 1500 Byte.xaa)).
  split; [evaluate|]. split; evaluate.
Qed.

(** C5, the claim as stated does not hold. The buffer built with size
    1500 has headroom 64 and length 1500, and its tailroom has wrapped
    to 4294967232: the three add up to the capacity plus 2^32. *)
Lemma headroom_length_tailroom_counterexample :
  let b := byte_buffer_t_size scenario_memory 1500 in
  reachable b /\
  get_headroom b = 64 /\ N_bytes b = 1500 /\ get_tailroom b = 4294967232 /\
  get_headroom b + N_bytes b + get_tailroom b = sizeof_buffer + 2 ^ 32 /\
  get_headroom b + N_bytes b + get_tailroom b <> sizeof_buffer.
Proof.
  cbv zeta. split; [apply reach_size; [reflexivity | split; evaluate]|].
  do 4 (split; [evaluate|]). evaluate.
Qed.

(** *** The theorems at work on the scenario build *)

Lemma headroom_length_tailroom_witness :
  let b := clear (byte_buffer_t_size scenario_memory 100) in
  config_ok /\ reachable b /\
  to_uint32 (to_uint32 (get_headroom b + N_bytes b) + get_tailroom b) = sizeof_buffer /\
  (invariant b -> get_headroom b + N_bytes b + get_tailroom b = sizeof_buffer).
Proof.
  cbv zeta. split; [exact scenario_config_ok|].
  assert (Hr : reachable (clear (byte_buffer_t_size scenario_memory 100))).
  { apply reach_clear, reach_size; [reflexivity | split; evaluate]. }
  split; [exact Hr|].
  exact (headroom_length_tailroom _ scenario_config_ok Hr).
Defined.

Lemma append_unchecked_witness :
  let b := byte_buffer_t_size scenario_memory 1430 in
  let bytes := replicate 10 Byte.xff in
  let pos := Z.to_nat (msg b + N_bytes b) in
  well_typed b /\
  exists n' a',
    n' = to_uint32 (N_bytes b + Z.of_nat (length bytes)) /\
    length a' = length (buffer b) /\
    (forall i, (i < pos)%nat -> a' !! i = buffer b !! i) /\
    (forall i, (pos + length bytes <= i)%nat -> a' !! i = buffer b !! i) /\
    (forall k x, bytes !! k = Some x -> (pos + k < length (buffer b))%nat ->
       a' !! (pos + k)%nat = Some x) /\
    (length bytes = 0%nat \/
     msg b + N_bytes b + Z.of_nat (length bytes) <= sizeof_buffer ->
     append_bytes b bytes
     = Done {| N_bytes := n'; buffer := a'; msg := msg b; md := md b |}) /\
    ((0 < length bytes)%nat ->
     sizeof_buffer < msg b + N_bytes b + Z.of_nat (length bytes) ->
     append_bytes b bytes = WriteOverrun n' a') /\
    (config_ok -> well_typed b -> invariant b ->
     Z.of_nat (length bytes) <= get_tailroom b ->
     exists b', append_bytes b bytes = Done b' /\
       valid_bytes b' = valid_bytes b ++ bytes /\ invariant b').
Proof.
  cbv zeta.
  assert (Hwt : well_typed (byte_buffer_t_size scenario_memory 1430)) by typed.
  split; [exact Hwt|].
  exact (append_unchecked _ (replicate 10 Byte.xff) Hwt).
Defined.

Lemma create_length_headroom_witness :
  config_ok /\
  0 <= 100 <= sizeof_buffer - SRSLTE_BUFFER_HEADER_OFFSET /\
  N_bytes (byte_buffer_t_size scenario_memory 100) = 100 /\
  get_headroom (byte_buffer_t_size scenario_memory 100) = SRSLTE_BUFFER_HEADER_OFFSET /\
  (exists b, byte_buffer_t_fill scenario_memory 100 Byte.xff = Done b /\
     N_bytes b = 100 /\
     get_headroom b = SRSLTE_BUFFER_HEADER_OFFSET) /\
  N_bytes (byte_buffer_t_default scenario_memory) = 0 /\
  get_headroom (byte_buffer_t_default scenario_memory) = SRSLTE_BUFFER_HEADER_OFFSET.
Proof.
  assert (Hsize : 0 <= 100 <= sizeof_buffer - SRSLTE_BUFFER_HEADER_OFFSET)
    by (split; evaluate).
  split; [exact scenario_config_ok|]. split; [exact Hsize|].
  exact (create_length_headroom scenario_memory 100 Byte.xff scenario_config_ok Hsize).
Defined.

Lemma create_unchecked_witness :
  config_ok /\ is_uint32 1500 /\
  N_bytes (byte_buffer_t_size scenario_memory 1500) = 1500 /\
  msg (byte_buffer_t_size scenario_memory 1500) = SRSLTE_BUFFER_HEADER_OFFSET /\
  buffer (byte_buffer_t_size scenario_memory 1500) = scenario_memory /\
  md (byte_buffer_t_size scenario_memory 1500) = md_init /\
  (invariant (byte_buffer_t_size scenario_memory 1500) <->
   1500 <= sizeof_buffer - SRSLTE_BUFFER_HEADER_OFFSET).
Proof.
  assert (Hsize : is_uint32 1500) by (split; evaluate).
  split; [exact scenario_config_ok|]. split; [exact Hsize|].
  exact (create_unchecked scenario_memory 1500 scenario_config_ok Hsize).
Defined.

Lemma append_append_witness :
  let b := byte_buffer_t_default scenario_memory in
  let x := [Byte.x01; Byte.x02] in
  let y := [Byte.x03] in
  (config_ok /\ well_typed b /\ invariant b /\
   Z.of_nat (length x) <= get_tailroom b /\
   (forall b1, append_bytes b x = Done b1 -> Z.of_nat (length y) <= get_tailroom b1)) /\
  exists b1 b2,
    append_bytes b x = Done b1 /\
    append_bytes b1 y = Done b2 /\
    append_bytes b (x ++ y) = Done b2 /\
    N_bytes b2 = N_bytes b + Z.of_nat (length x) + Z.of_nat (length y) /\
    valid_bytes b2 = valid_bytes b ++ x ++ y.
Proof.
  cbv zeta.
  assert (Hwt : well_typed (byte_buffer_t_default scenario_memory)) by typed.
  assert (Hinv : invariant (byte_buffer_t_default scenario_memory))
    by (split; evaluate).
  assert (Hx : Z.of_nat (length [Byte.x01; Byte.x02])
               <= get_tailroom (byte_buffer_t_default scenario_memory))
    by evaluate.
  assert (Hy : forall b1,
             append_bytes (byte_buffer_t_default scenario_memory)
               [Byte.x01; Byte.x02] = Done b1 ->
             Z.of_nat (length [Byte.x03]) <= get_tailroom b1).
  { intros b1 Hd. vm_compute in Hd. injection Hd as <-. evaluate. }
  split; [by repeat split; try exact scenario_config_ok|].
  exact (append_append _ _ _ scenario_config_ok Hwt Hinv Hx Hy).
Defined.

Lemma invariant_preserved_witness :
  let b := byte_buffer_t_default scenario_memory in
  let ops := [Append [Byte.x01]; Clear; Append [Byte.x02; Byte.x03];
              Assign (byte_buffer_t_size scenario_memory 1436)] in
  (config_ok /\ well_typed b /\ invariant b /\ ops_fit b ops) /\
  exists b', run b ops = Done b' /\ invariant b'.
Proof.
  cbv zeta.
  assert (Hwt : well_typed (byte_buffer_t_default scenario_memory)) by typed.
  assert (Hinv : invariant (byte_buffer_t_default scenario_memory))
    by (split; evaluate).
  assert (Hfit : ops_fit (byte_buffer_t_default scenario_memory)
                   [Append [Byte.x01]; Clear; Append [Byte.x02; Byte.x03];
                    Assign (byte_buffer_t_size scenario_memory 1436)]).
  { simpl. split; [evaluate|]. intros b1 Hd1. vm_compute in Hd1. injection Hd1 as <-.
    split; [exact I|]. intros b2 Hd2. injection Hd2 as <-.
    split; [evaluate|]. intros b3 Hd3. vm_compute in Hd3. injection Hd3 as <-.
    split; [|done]. split; [split; evaluate|]. split; [split; evaluate | evaluate]. }
  split; [split; [exact scenario_config_ok
                 | split; [exact Hwt | split; [exact Hinv | exact Hfit]]]|].
  destruct (invariant_preserved_when_sizes_fit scenario_config_ok)
    as (_ & _ & _ & _ & _ & _ & _ & Hrun).
  exact (Hrun _ _ Hwt Hinv Hfit).
Defined.

Lemma copy_normalises_headroom_witness :
  let this := byte_buffer_t_default scenario_memory in
  let buf := store_members (byte_buffer_t_default scenario_memory)
               100 (replicate 1500 Byte.xaa) 60 7 in
  let h : gmap positive byte_buffer_t := <[1%positive := this]> {[2%positive := buf]} in
  (config_ok /\ well_typed this /\ well_typed buf /\ invariant buf /\
   N_bytes buf <= sizeof_buffer - SRSLTE_BUFFER_HEADER_OFFSET /\
   h !! 1%positive = Some this /\ h !! 2%positive = Some buf) /\
  (exists c,
     byte_buffer_t_copy scenario_memory buf = Done c /\
     N_bytes c = N_bytes buf /\
     valid_bytes c = valid_bytes buf /\
     md c = md buf /\
     get_headroom c = SRSLTE_BUFFER_HEADER_OFFSET) /\
  (exists h' c,
     operator_assign h 1%positive 2%positive = Some h' /\
     h' !! 1%positive = Some c /\ h' !! 2%positive = Some buf /\
     N_bytes c = N_bytes buf /\
     valid_bytes c = valid_bytes buf /\
     md c = md buf /\
     get_headroom c = SRSLTE_BUFFER_HEADER_OFFSET).
Proof.
  cbv zeta.
  set (this := byte_buffer_t_default scenario_memory).
  set (buf := store_members this 100 (replicate 1500 Byte.xaa) 60 7).
  set (h := <[1%positive := this]> {[2%positive := buf]} : gmap positive byte_buffer_t).
  assert (Hwt_this : well_typed this) by typed.
  assert (Hwt : well_typed buf) by typed.
  assert (Hinv : invariant buf) by (split; evaluate).
  assert (Hfit : N_bytes buf <= sizeof_buffer - SRSLTE_BUFFER_HEADER_OFFSET)
    by evaluate.
  assert (Ht : h !! 1%positive = Some this) by apply lookup_insert_eq.
  assert (Hb : h !! 2%positive = Some buf).
  { subst h. rewrite lookup_insert_ne by done. apply lookup_singleton_eq. }
  assert (Hne : 1%positive <> 2%positive) by done.
  split; [by repeat split; try exact scenario_config_ok|].
  exact (copy_normalises_headroom scenario_memory h 1 2 this buf
           scenario_config_ok scenario_memory_length
           Hwt_this Hwt Hinv Hfit Ht Hb Hne).
Defined.

Lemma self_assignment_noop_witness :
  let b := store_members (byte_buffer_t_default scenario_memory)
             100 (replicate 1500 Byte.xaa) 60 7 in
  let i := bit_buffer.Build_bit_buffer_t 5 (replicate (Z.to_nat 12000) Byte.x01) 10 in
  let hb : gmap positive byte_buffer_t := {[1%positive := b]} in
  let hi : gmap positive bit_buffer.bit_buffer_t := {[1%positive := i]} in
  (hb !! 1%positive = Some b /\ hi !! 1%positive = Some i) /\
  (exists hb',
     operator_assign hb 1%positive 1%positive = Some hb' /\ hb' = hb /\
     hb' !! 1%positive = Some b) /\
  (exists hi',
     bit_buffer.operator_assign hi 1%positive 1%positive = Some hi' /\ hi' = hi /\
     hi' !! 1%positive = Some i).
Proof.
  cbv zeta.
  set (b := store_members _ _ _ _ _).
  set (i := bit_buffer.Build_bit_buffer_t _ _ _).
  assert (Hb : ({[1%positive := b]} : gmap positive byte_buffer_t) !! 1%positive
               = Some b) by apply lookup_singleton_eq.
  assert (Hi : ({[1%positive := i]} : gmap positive bit_buffer.bit_buffer_t) !! 1%positive
               = Some i) by apply lookup_singleton_eq.
  split; [by split|].
  exact (self_assignment_noop _ _ _ _ _ _ Hb Hi).
Defined.

End scenario.

(** * Further properties of the interface *)

(** ** memcpy, continued *)

(** Copying the same bytes to the same place again changes nothing. *)
Lemma memcpy_idem src a pos : memcpy (memcpy a pos src) pos src = memcpy a pos src.
Proof.
  apply list_eq. intros i.
  destruct (decide (i < pos)%nat) as [Hlt|Hge].
  { by rewrite !memcpy_lookup_lt. }
  destruct (decide (pos + length src <= i)%nat) as [Hpast|Hin].
  { by rewrite !memcpy_lookup_ge. }
  destruct (decide (i < length a)%nat) as [Hi|Hi].
  - destruct (lookup_lt_is_Some_2 src (i - pos)) as [x Hx]; [lia|].
    replace i with (pos + (i - pos))%nat by lia.
    rewrite (memcpy_lookup_in src (memcpy a pos src) pos (i - pos) x Hx)
      by (rewrite length_memcpy; lia).
    symmetry. apply memcpy_lookup_in; [done | lia].
  - rewrite !(proj2 (lookup_ge_None _ i)); [done | |];
      rewrite ?length_memcpy; lia.
Qed.

Lemma length_cells (a : list byte) pos n :
  0 <= pos -> 0 <= n ->
  length (cells a pos n) = Z.to_nat (Z.min n (Z.of_nat (length a) - pos)).
Proof.
  intros Hpos Hn. unfold cells. rewrite length_take, length_drop. lia.
Qed.

(** A region of one array copied into another, both inside their
    arrays, reads back as it was. *)
Lemma cells_memcpy_cells (a src : list byte) off pos n :
  0 <= off -> 0 <= pos -> 0 <= n ->
  pos + n <= Z.of_nat (length src) -> off + n <= Z.of_nat (length a) ->
  cells (memcpy a (Z.to_nat off) (cells src pos n)) off n = cells src pos n.
Proof.
  intros Hoff Hpos Hn Hsrc Ha.
  assert (Hl : length (cells src pos n) = Z.to_nat n)
    by (rewrite length_cells by done; lia).
  unfold cells at 1. rewrite <- Hl. apply cells_memcpy. rewrite Hl. lia.
Qed.

Lemma cells_memcpy_replicate (a : list byte) off n val :
  0 <= off -> 0 <= n -> off + n <= Z.of_nat (length a) ->
  cells (memcpy a (Z.to_nat off) (replicate (Z.to_nat n) val)) off n
  = replicate (Z.to_nat n) val.
Proof.
  intros Hoff Hn Ha. unfold cells.
  pose proof (cells_memcpy (replicate (Z.to_nat n) val) a (Z.to_nat off)) as Hc.
  rewrite length_replicate in Hc. apply Hc. lia.
Qed.

Section byte_buffer_more.
Import byte_buffer.
Context `{C : build_config}.

Lemma sizeof_buffer_bounds :
  config_ok ->
  0 <= SRSLTE_BUFFER_HEADER_OFFSET <= sizeof_buffer /\ sizeof_buffer < 2 ^ 32.
Proof.
  intros HC. pose proof (header_offset_nonneg HC).
  pose proof (header_offset_bytes HC). pose proof (max_bytes_uint32 HC).
  unfold sizeof_buffer. lia.
Qed.

(** X1. [byte_buffer_t(size, val)] with a size that fits after the
    default margin stays inside the array: the valid bytes are [size]
    copies of [val], and the cells of the array before the margin and
    past the filled range are the ones the array had. *)
Theorem fill_contents (mem : list byte) (size : Z) (val : byte) :
  config_ok -> length mem = Z.to_nat sizeof_buffer ->
  0 <= size <= sizeof_buffer - SRSLTE_BUFFER_HEADER_OFFSET ->
  exists b,
    byte_buffer_t_fill mem size val = Done b /\
    valid_bytes b = replicate (Z.to_nat size) val /\
    (forall i, (i < Z.to_nat SRSLTE_BUFFER_HEADER_OFFSET)%nat ->
       buffer b !! i = mem !! i) /\
    (forall i, (Z.to_nat SRSLTE_BUFFER_HEADER_OFFSET + Z.to_nat size <= i)%nat ->
       buffer b !! i = mem !! i).
Proof.
  intros HC Hmem Hsize. destruct (sizeof_buffer_bounds HC) as [Hoff _].
  exists (byte_buffer_t_fill_body mem size val).
  split; [apply fill_Done; lia|]. split; [|split].
  - unfold valid_bytes; simpl. apply cells_memcpy_replicate; lia.
  - intros i Hi. simpl. by apply memcpy_lookup_lt.
  - intros i Hi. simpl. apply memcpy_lookup_ge. by rewrite length_replicate.
Qed.

Lemma well_typed_clear b : config_ok -> well_typed b -> well_typed (clear b).
Proof.
  intros HC [Hlen _ _]. destruct (sizeof_buffer_bounds HC) as [Hoff _].
  split; simpl; [done | unfold is_uint32; lia | done].
Qed.

Lemma well_typed_default mem :
  config_ok -> length mem = Z.to_nat sizeof_buffer ->
  well_typed (byte_buffer_t_default mem).
Proof.
  intros HC Hlen. destruct (sizeof_buffer_bounds HC) as [Hoff _].
  split; simpl; [done | unfold is_uint32; lia | done].
Qed.

(** What an append to an empty buffer at the default margin gives. *)
Lemma append_to_empty b x :
  config_ok -> well_typed b -> N_bytes b = 0 ->
  msg b = SRSLTE_BUFFER_HEADER_OFFSET ->
  Z.of_nat (length x) <= sizeof_buffer - SRSLTE_BUFFER_HEADER_OFFSET ->
  valid_bytes (append_bytes_body b x) = x /\
  N_bytes (append_bytes_body b x) = Z.of_nat (length x) /\
  get_headroom (append_bytes_body b x) = SRSLTE_BUFFER_HEADER_OFFSET /\
  get_tailroom (append_bytes_body b x)
    = sizeof_buffer - SRSLTE_BUFFER_HEADER_OFFSET - Z.of_nat (length x).
Proof.
  intros HC Hwt HN Hmsg Hfit. destruct (sizeof_buffer_bounds HC) as [Hoff Hmax].
  assert (Hinv : invariant b) by (unfold invariant; lia).
  assert (Hroom : Z.of_nat (length x) <= get_tailroom b)
    by (rewrite (get_tailroom_invariant b HC Hwt Hinv); lia).
  assert (Hinv' := invariant_append b x HC Hwt Hinv Hroom).
  assert (Hwt' := well_typed_append b x Hwt).
  destruct (append_no_wrap b x HC Hwt Hinv Hroom) as [HN' _].
  split; [|split; [|split]].
  - rewrite (valid_bytes_append b x HC Hwt Hinv Hroom).
    unfold valid_bytes, cells. by rewrite HN.
  - lia.
  - by apply get_headroom_offset.
  - rewrite (get_tailroom_invariant _ HC Hwt' Hinv'), HN'. simpl. lia.
Qed.

(** X2. Whatever state a buffer was in, [clear()] followed by an append
    of bytes that fit after the default margin gives what the same
    append gives on a freshly constructed buffer: both stay inside the
    array, the valid bytes are the appended bytes, and length,
    headroom, tailroom and metadata agree. *)
Theorem clear_then_append_as_fresh (b : byte_buffer_t) (mem x : list byte) :
  config_ok -> well_typed b -> length mem = Z.to_nat sizeof_buffer ->
  Z.of_nat (length x) <= sizeof_buffer - SRSLTE_BUFFER_HEADER_OFFSET ->
  exists r f,
    append_bytes (clear b) x = Done r /\
    append_bytes (byte_buffer_t_default mem) x = Done f /\
    valid_bytes r = x /\ valid_bytes f = x /\
    N_bytes r = N_bytes f /\
    get_headroom r = get_headroom f /\
    get_tailroom r = get_tailroom f /\
    md r = md f.
Proof.
  intros HC Hwt Hmem Hfit. destruct (sizeof_buffer_bounds HC) as [Hoff _].
  destruct (append_to_empty (clear b) x HC (well_typed_clear b HC Hwt)
              eq_refl eq_refl Hfit) as (Hv & HN & Hh & Ht).
  destruct (append_to_empty (byte_buffer_t_default mem) x HC
              (well_typed_default mem HC Hmem) eq_refl eq_refl Hfit)
    as (Hv' & HN' & Hh' & Ht').
  exists (append_bytes_body (clear b) x),
         (append_bytes_body (byte_buffer_t_default mem) x).
  split; [apply append_bytes_Done; simpl; lia|].
  split; [apply append_bytes_Done; simpl; lia|].
  rewrite Hv, Hv', HN, HN', Hh, Hh', Ht, Ht'. done.
Qed.

(** X3. An append within the tailroom of a buffer that satisfies the
    invariant stays inside the array, takes exactly its count from the
    tailroom, adds it to [size()] and leaves the headroom alone. *)
Theorem append_moves_tailroom (b : byte_buffer_t) (x : list byte) :
  config_ok -> well_typed b -> invariant b ->
  Z.of_nat (length x) <= get_tailroom b ->
  exists b',
    append_bytes b x = Done b' /\
    get_tailroom b' = get_tailroom b - Z.of_nat (length x) /\
    get_headroom b' = get_headroom b /\
    size b' = size b + Z.of_nat (length x).
Proof.
  intros HC Hwt Hinv Hfit.
  destruct (tailroom_after_append b x HC Hwt Hinv Hfit) as [Ht HN].
  exists (append_bytes_body b x).
  split; [by apply append_fits_Done|]. split; [exact Ht|].
  split; [reflexivity | exact HN].
Qed.

(** X4. [get_tailroom()] on a buffer whose valid range ends past the
    array does not report 0: the subtraction wraps, and the result is
    2^32 less the excess, a positive number. *)
Theorem tailroom_wraps_when_overfull (b : byte_buffer_t) :
  config_ok -> well_typed b -> sizeof_buffer < msg b + N_bytes b ->
  get_tailroom b = 2 ^ 32 - (msg b + N_bytes b - sizeof_buffer) /\
  0 < get_tailroom b.
Proof.
  intros HC [_ [HN0 HN] [Hmsg0 Hmsg]] Hover.
  assert (Heq : get_tailroom b = 2 ^ 32 - (msg b + N_bytes b - sizeof_buffer)).
  { rewrite get_tailroom_eq. unfold to_uint32.
    symmetry. apply (Z.mod_unique_pos _ _ (-1)). lia. lia. }
  split; [exact Heq | lia].
Qed.

(** X5. The span [{msg, N_bytes}] of [make_span] shows [N_bytes] cells
    of the array exactly when the buffer satisfies the invariant;
    [end() - begin()] is [size()] in any case. *)
Theorem span_within_array (b : byte_buffer_t) :
  well_typed b ->
  (length (valid_bytes b) = Z.to_nat (snd (make_span b)) <-> invariant b) /\
  fst (make_span b) = data b /\
  end_ b - begin b = size b.
Proof.
  intros [Hlen [HN0 _] [Hmsg0 Hmsg]]. split; [|split].
  - unfold valid_bytes, invariant. simpl. rewrite length_cells by done.
    rewrite Hlen. lia.
  - reflexivity.
  - unfold end_, begin, size. lia.
Qed.

(** X6. Assigning from the same source a second time changes nothing,
    and neither does assigning to a copy the source it was copied from. *)
Theorem assign_idempotent (mem : list byte) (this buf c : byte_buffer_t) :
  (assign_from this buf = Done c -> assign_from c buf = Done c) /\
  (byte_buffer_t_copy mem buf = Done c -> assign_from c buf = Done c).
Proof.
  split; intros Hd.
  - apply assign_Done_inv in Hd as (-> & [Hmsg Hread] & Hwrite).
    rewrite (assign_Done _ buf Hmsg Hread Hwrite). f_equal.
    unfold assign_from_body; simpl. by rewrite memcpy_idem.
  - apply copy_Done_inv in Hd as (-> & [Hmsg Hread] & Hwrite).
    rewrite (assign_Done _ buf Hmsg Hread Hwrite). f_equal.
    unfold assign_from_body, byte_buffer_t_copy_body; simpl.
    by rewrite memcpy_idem.
Qed.

(** X7. A copy construction or an assignment that stays inside the
    arrays writes the [N_bytes] cells from the header offset on and no
    other: the cells before the header offset and those past the copied
    bytes are the ones the target's array had, whatever the source
    holds in its own headroom; the array keeps its size. *)
Theorem copy_leaves_margins (mem : list byte) (this buf c c' : byte_buffer_t) :
  well_typed buf ->
  byte_buffer_t_copy mem buf = Done c ->
  assign_from this buf = Done c' ->
  (forall i, (i < Z.to_nat SRSLTE_BUFFER_HEADER_OFFSET)%nat ->
     buffer c !! i = mem !! i /\ buffer c' !! i = buffer this !! i) /\
  (forall i,
     (Z.to_nat SRSLTE_BUFFER_HEADER_OFFSET + Z.to_nat (N_bytes buf) <= i)%nat ->
     buffer c !! i = mem !! i /\ buffer c' !! i = buffer this !! i) /\
  length (buffer c) = length mem /\
  length (buffer c') = length (buffer this).
Proof.
  intros Hwt Hc Hc'.
  apply copy_Done_inv in Hc as (-> & [Hmsg Hread] & _).
  apply assign_Done_inv in Hc' as (-> & _ & _).
  assert (Hl : length (cells (buffer buf) (msg buf) (N_bytes buf))
               = Z.to_nat (N_bytes buf)).
  { destruct Hwt as [Hlen [HN _] _]. rewrite length_cells by done.
    rewrite Hlen. lia. }
  split; [|split; [|split]]; simpl.
  - intros i Hi. split; by apply memcpy_lookup_lt.
  - intros i Hi. split; apply memcpy_lookup_ge; by rewrite Hl.
  - apply length_memcpy.
  - apply length_memcpy.
Qed.

(** *** Runs of appends *)

Lemma append_bytes_body_nil b : is_uint32 (N_bytes b) -> append_bytes_body b [] = b.
Proof.
  intros HN. destruct b as [n a p m]. unfold append_bytes_body; simpl in *.
  by rewrite Z.add_0_r, to_uint32_id.
Qed.

Lemma append_all_fits xs : forall b,
  config_ok -> well_typed b -> invariant b ->
  Z.of_nat (length (concat xs)) <= get_tailroom b ->
  append_all b xs = Done (append_bytes_body b (concat xs)).
Proof.
  induction xs as [|x xs IH]; intros b HC Hwt Hinv Hfit; simpl in *.
  - f_equal. symmetry. apply append_bytes_body_nil. by destruct Hwt.
  - rewrite length_app, Nat2Z.inj_add in Hfit.
    assert (Hx : Z.of_nat (length x) <= get_tailroom b) by lia.
    destruct (tailroom_after_append b x HC Hwt Hinv Hx) as [Ht _].
    rewrite (append_fits_Done b x HC Hwt Hinv Hx). simpl.
    rewrite IH.
    + f_equal. by apply append_bytes_body_app.
    + done.
    + by apply well_typed_append.
    + by apply invariant_append.
    + lia.
Qed.

(** X8. Appending the chunks of a list one after the other, on a buffer
    that satisfies the invariant and whose tailroom takes them all,
    stays inside the array and is one append of their concatenation:
    the valid bytes are the former ones followed by the chunks in
    order, the length grows by their total, and the invariant holds at
    the end. Empty chunks, and the empty list of chunks, change
    nothing. *)
Theorem append_chunks (xs : list (list byte)) (b : byte_buffer_t) :
  config_ok -> well_typed b -> invariant b ->
  Z.of_nat (length (concat xs)) <= get_tailroom b ->
  exists r,
    append_all b xs = Done r /\
    append_bytes b (concat xs) = Done r /\
    valid_bytes r = valid_bytes b ++ concat xs /\
    N_bytes r = N_bytes b + Z.of_nat (length (concat xs)) /\
    invariant r.
Proof.
  intros HC Hwt Hinv Hfit. exists (append_bytes_body b (concat xs)).
  split; [by apply append_all_fits|].
  split; [by apply append_fits_Done|].
  split; [by apply valid_bytes_append|].
  split; [by apply append_no_wrap | by apply invariant_append].
Qed.

(** *** Timestamps through the buffer *)

(** X9. A time point stored with [set_timestamp(tp_)] is the one
    [get_timestamp()] returns and, as long as the clock reading is
    within 64-bit range of it, the one the latency is measured from;
    storing it touches neither length, nor [msg], nor the array, nor the
    sequence number; and a copy, or an object assigned from the buffer,
    made inside the arrays carries the capture along and reports the
    same latency. *)
Theorem timestamp_round_trip
    (b this : byte_buffer_t) (mem : list byte) (tp_ now : Z) :
  get_timestamp (set_timestamp_at tp_ b) = tp_ /\
  (is_int64 (now - tp_) ->
   get_latency_us now (set_timestamp_at tp_ b) = Z.quot (now - tp_) clock_ticks_per_us) /\
  get_latency_us now (set_timestamp now b) = 0 /\
  (N_bytes (set_timestamp_at tp_ b) = N_bytes b /\
   msg (set_timestamp_at tp_ b) = msg b /\
   buffer (set_timestamp_at tp_ b) = buffer b /\
   pdcp_sn (md (set_timestamp_at tp_ b)) = pdcp_sn (md b)) /\
  (forall c, byte_buffer_t_copy mem (set_timestamp_at tp_ b) = Done c ->
     get_timestamp c = tp_ /\
     get_latency_us now c = get_latency_us now (set_timestamp_at tp_ b)) /\
  (forall c, assign_from this (set_timestamp_at tp_ b) = Done c ->
     get_timestamp c = tp_ /\
     get_latency_us now c = get_latency_us now (set_timestamp_at tp_ b)).
Proof.
  split; [reflexivity|]. split.
  { intros Hr. unfold get_latency_us, latency.get_latency_us; simpl.
    by rewrite to_int64_id. }
  split.
  { unfold get_latency_us, latency.get_latency_us; simpl.
    by rewrite Z.sub_diag. }
  split; [done|]. split.
  - intros c Hd. by apply copy_Done_inv in Hd as [-> _].
  - intros c Hd. by apply assign_Done_inv in Hd as [-> _].
Qed.

End byte_buffer_more.

(** ** buffer_latency_calc, continued *)

Section latency_more.
Context `{C : build_config}.

(** X10. With a clock that ticks a positive number of times per
    microsecond, and clock readings within 64-bit range of the stored
    time point, the latency read from a tracker does not decrease as
    the clock advances, and it is not negative once the clock has
    reached the captured time point. *)
Theorem latency_monotone (t : buffer_latency_calc) (now1 now2 : Z) :
  0 < clock_ticks_per_us -> now1 <= now2 ->
  is_int64 (now1 - tp t) -> is_int64 (now2 - tp t) ->
  latency.get_latency_us now1 t <= latency.get_latency_us now2 t /\
  (tp t <= now1 -> 0 <= latency.get_latency_us now1 t).
Proof.
  intros Hticks Hnow H1 H2. unfold latency.get_latency_us.
  destruct (timestamp_is_set t); simpl.
  - rewrite !to_int64_id by done. split.
    + apply Z.quot_le_mono; lia.
    + intros Htp. apply Z.quot_pos; lia.
  - lia.
Qed.

(** X11. [buffer_latency_calc::clear()] only drops the flag: the latency
    reads 0 afterwards while [get_timestamp()] still returns the time
    point captured before; a new capture makes the latency run again
    from the new point (for clock readings within 64-bit range of it).
    [byte_buffer_t::clear()] replaces the whole metadata instead, so
    there [get_timestamp()] is back at the epoch. *)
Theorem clear_keeps_time_point
    (t : buffer_latency_calc) (b : byte_buffer.byte_buffer_t) (tp_ tp2 now : Z) :
  latency.get_timestamp (latency.clear (latency.set_timestamp_at tp_ t)) = tp_ /\
  latency.get_latency_us now (latency.clear (latency.set_timestamp_at tp_ t)) = 0 /\
  (is_int64 (now - tp2) ->
   latency.get_latency_us now
     (latency.set_timestamp_at tp2 (latency.clear (latency.set_timestamp_at tp_ t)))
   = Z.quot (now - tp2) clock_ticks_per_us) /\
  byte_buffer.get_timestamp (byte_buffer.clear (byte_buffer.set_timestamp_at tp_ b)) = 0 /\
  byte_buffer.get_latency_us now
    (byte_buffer.clear (byte_buffer.set_timestamp_at tp_ b)) = 0.
Proof.
  split; [reflexivity|]. split; [reflexivity|]. split; [|done].
  intros Hr. unfold latency.get_latency_us; simpl. by rewrite to_int64_id.
Qed.

End latency_more.

(** ** bit_buffer_t *)

Section bit_buffer_facts.
Context `{C : build_config}.

Lemma bit_sizeof_buffer_bounds :
  config_ok ->
  0 <= SRSLTE_BUFFER_HEADER_OFFSET <= bit_buffer.sizeof_buffer /\
  bit_buffer.sizeof_buffer < 2 ^ 32.
Proof.
  intros HC. pose proof (header_offset_nonneg HC).
  pose proof (header_offset_bits HC). pose proof (max_bits_uint32 HC).
  unfold bit_buffer.sizeof_buffer. lia.
Qed.

Lemma bit_cells_copied (a : list byte) buf :
  config_ok -> length a = Z.to_nat bit_buffer.sizeof_buffer ->
  bit_buffer.well_typed buf -> bit_buffer.invariant buf ->
  bit_buffer.N_bits buf <= bit_buffer.sizeof_buffer - SRSLTE_BUFFER_HEADER_OFFSET ->
  cells (memcpy a (Z.to_nat SRSLTE_BUFFER_HEADER_OFFSET) (bit_buffer.valid_bits buf))
        SRSLTE_BUFFER_HEADER_OFFSET (bit_buffer.N_bits buf)
  = bit_buffer.valid_bits buf.
Proof.
  intros HC Ha [Hlen [HN _] _] [Hmsg Hin] Hfit.
  destruct (bit_sizeof_buffer_bounds HC) as [Hoff _].
  apply cells_memcpy_cells; lia.
Qed.

(** X12. For a source bit buffer that satisfies the invariant and whose
    length is at most the capacity less the header offset, the copy
    constructor and the assignment stay inside the arrays and give a
    buffer with the source's [N_bits] and valid cells, with the header
    offset as headroom, and within the invariant. *)
Theorem bit_copy_keeps_bits (mem : list byte) (this buf : bit_buffer.bit_buffer_t) :
  config_ok ->
  length mem = Z.to_nat bit_buffer.sizeof_buffer ->
  bit_buffer.well_typed this -> bit_buffer.well_typed buf ->
  bit_buffer.invariant buf ->
  bit_buffer.N_bits buf <= bit_buffer.sizeof_buffer - SRSLTE_BUFFER_HEADER_OFFSET ->
  (exists c,
     bit_buffer.bit_buffer_t_copy mem buf = Done c /\
     bit_buffer.N_bits c = bit_buffer.N_bits buf /\
     bit_buffer.valid_bits c = bit_buffer.valid_bits buf /\
     bit_buffer.get_headroom c = SRSLTE_BUFFER_HEADER_OFFSET /\
     bit_buffer.invariant c) /\
  (exists c,
     bit_buffer.assign_from this buf = Done c /\
     bit_buffer.N_bits c = bit_buffer.N_bits buf /\
     bit_buffer.valid_bits c = bit_buffer.valid_bits buf /\
     bit_buffer.get_headroom c = SRSLTE_BUFFER_HEADER_OFFSET /\
     bit_buffer.invariant c).
Proof.
  intros HC Hmem [Hthis _ _] Hwt Hinv Hfit.
  destruct (bit_sizeof_buffer_bounds HC) as [Hoff Hmax].
  pose proof Hinv as [Hmsg Hread].
  assert (Hh : to_uint32 SRSLTE_BUFFER_HEADER_OFFSET = SRSLTE_BUFFER_HEADER_OFFSET)
    by (apply to_uint32_id; unfold is_uint32; lia).
  split.
  - exists (bit_buffer.bit_buffer_t_copy_body mem buf). split.
    { unfold bit_buffer.bit_buffer_t_copy.
      rewrite decide_True by done. rewrite decide_True by lia. done. }
    split; [reflexivity|]. split; [|split].
    + exact (bit_cells_copied mem buf HC Hmem Hwt Hinv Hfit).
    + exact Hh.
    + unfold bit_buffer.invariant; simpl. lia.
  - exists (bit_buffer.assign_from_body this buf). split.
    { unfold bit_buffer.assign_from.
      rewrite decide_True by done. rewrite decide_True by lia. done. }
    split; [reflexivity|]. split; [|split].
    + exact (bit_cells_copied (bit_buffer.buffer this) buf HC Hthis Hwt Hinv Hfit).
    + exact Hh.
    + unfold bit_buffer.invariant; simpl. lia.
Qed.

(** X13. A default-constructed bit buffer, and any bit buffer after
    [clear()], is empty, has the header offset as headroom and satisfies
    the invariant; [clear()] leaves the array as it is. *)
Theorem bit_clear_resets (mem : list byte) (b : bit_buffer.bit_buffer_t) :
  config_ok ->
  (bit_buffer.valid_bits (bit_buffer.bit_buffer_t_default mem) = [] /\
   bit_buffer.get_headroom (bit_buffer.bit_buffer_t_default mem)
     = SRSLTE_BUFFER_HEADER_OFFSET /\
   bit_buffer.invariant (bit_buffer.bit_buffer_t_default mem)) /\
  (bit_buffer.N_bits (bit_buffer.clear b) = 0 /\
   bit_buffer.valid_bits (bit_buffer.clear b) = [] /\
   bit_buffer.get_headroom (bit_buffer.clear b) = SRSLTE_BUFFER_HEADER_OFFSET /\
   bit_buffer.buffer (bit_buffer.clear b) = bit_buffer.buffer b /\
   bit_buffer.invariant (bit_buffer.clear b)).
Proof.
  intros HC. destruct (bit_sizeof_buffer_bounds HC) as [Hoff Hmax].
  assert (Hh : to_uint32 SRSLTE_BUFFER_HEADER_OFFSET = SRSLTE_BUFFER_HEADER_OFFSET)
    by (apply to_uint32_id; unfold is_uint32; lia).
  split.
  - split; [reflexivity|]. split; [exact Hh|].
    unfold bit_buffer.invariant; simpl. lia.
  - do 2 (split; [reflexivity|]). split; [exact Hh|]. split; [reflexivity|].
    unfold bit_buffer.invariant; simpl. lia.
Qed.

End bit_buffer_facts.

(** ** The AVX512 block size *)

(** X14. [SRSLTE_AVX512_B_SIZE_LOG] is the base-2 logarithm of
    [SRSLTE_AVX512_B_SIZE], as its comment says: shifting right by the
    one divides by the other, masking with the size less one is the
    remainder, and a count splits into whole blocks and the rest. *)
Theorem avx512_size_log (n : Z) :
  Z.shiftl 1 avx512.SRSLTE_AVX512_B_SIZE_LOG = avx512.SRSLTE_AVX512_B_SIZE /\
  Z.shiftr n avx512.SRSLTE_AVX512_B_SIZE_LOG = n / avx512.SRSLTE_AVX512_B_SIZE /\
  Z.land n (avx512.SRSLTE_AVX512_B_SIZE - 1) = n mod avx512.SRSLTE_AVX512_B_SIZE /\
  n = Z.shiftl (Z.shiftr n avx512.SRSLTE_AVX512_B_SIZE_LOG)
        avx512.SRSLTE_AVX512_B_SIZE_LOG
      + Z.land n (avx512.SRSLTE_AVX512_B_SIZE - 1).
Proof.
  unfold avx512.SRSLTE_AVX512_B_SIZE, avx512.SRSLTE_AVX512_B_SIZE_LOG.
  assert (Hshr : Z.shiftr n 6 = n / 64) by (by rewrite Z.shiftr_div_pow2).
  assert (Hland : Z.land n (64 - 1) = n mod 64)
    by (change (64 - 1) with (Z.ones 6); by rewrite Z.land_ones).
  split; [reflexivity|]. split; [exact Hshr|]. split; [exact Hland|].
  rewrite Hshr, Hland, Z.shiftl_mul_pow2 by lia.
  change (2 ^ 6) with 64. pose proof (Z.div_mod n 64). lia.
Qed.

(** ** The further properties on the scenario build *)

Section scenario_more.
Local Existing Instance scenario_config.
Import byte_buffer.

Lemma fill_contents_witness :
  (config_ok /\ 0 <= 3 <= sizeof_buffer - SRSLTE_BUFFER_HEADER_OFFSET) /\
  exists b,
    byte_buffer_t_fill scenario_memory 3 Byte.xff = Done b /\
    valid_bytes b = replicate (Z.to_nat 3) Byte.xff /\
    (forall i, (i < Z.to_nat SRSLTE_BUFFER_HEADER_OFFSET)%nat ->
       buffer b !! i = scenario_memory !! i) /\
    (forall i, (Z.to_nat SRSLTE_BUFFER_HEADER_OFFSET + Z.to_nat 3 <= i)%nat ->
       buffer b !! i = scenario_memory !! i).
Proof.
  assert (Hsize : 0 <= 3 <= sizeof_buffer - SRSLTE_BUFFER_HEADER_OFFSET)
    by (split; evaluate).
  split; [split; [exact scenario_config_ok | exact Hsize]|].
  exact (fill_contents scenario_memory 3 Byte.xff scenario_config_ok
           scenario_memory_length Hsize).
Defined.

Lemma clear_then_append_as_fresh_witness :
  let b := byte_buffer_t_size (replicate 1500 Byte.xaa) 700 in
  let x := [Byte.x01; Byte.x02; Byte.x03] in
  (config_ok /\ well_typed b /\
   Z.of_nat (length x) <= sizeof_buffer - SRSLTE_BUFFER_HEADER_OFFSET) /\
  exists r f,
    append_bytes (clear b) x = Done r /\
    append_bytes (byte_buffer_t_default scenario_memory) x = Done f /\
    valid_bytes r = x /\ valid_bytes f = x /\
    N_bytes r = N_bytes f /\
    get_headroom r = get_headroom f /\
    get_tailroom r = get_tailroom f /\
    md r = md f.
Proof.
  cbv zeta.
  assert (Hwt : well_typed (byte_buffer_t_size (replicate 1500 Byte.xaa) 700))
    by typed.
  assert (Hfit : Z.of_nat (length [Byte.x01; Byte.x02; Byte.x03])
                 <= sizeof_buffer - SRSLTE_BUFFER_HEADER_OFFSET) by evaluate.
  split; [split; [exact scenario_config_ok | split; [exact Hwt | exact Hfit]]|].
  exact (clear_then_append_as_fresh _ scenario_memory _ scenario_config_ok Hwt
           scenario_memory_length Hfit).
Defined.

Lemma append_moves_tailroom_witness :
  let b := byte_buffer_t_size scenario_memory 100 in
  let x := [Byte.x01; Byte.x02; Byte.x03] in
  (config_ok /\ well_typed b /\ invariant b /\
   Z.of_nat (length x) <= get_tailroom b) /\
  exists b',
    append_bytes b x = Done b' /\
    get_tailroom b' = get_tailroom b - Z.of_nat (length x) /\
    get_headroom b' = get_headroom b /\
    size b' = size b + Z.of_nat (length x).
Proof.
  cbv zeta.
  assert (Hwt : well_typed (byte_buffer_t_size scenario_memory 100)) by typed.
  assert (Hinv : invariant (byte_buffer_t_size scenario_memory 100))
    by (split; evaluate).
  assert (Hfit : Z.of_nat (length [Byte.x01; Byte.x02; Byte.x03])
                 <= get_tailroom (byte_buffer_t_size scenario_memory 100))
    by evaluate.
  split; [split; [exact scenario_config_ok
                 | split; [exact Hwt | split; [exact Hinv | exact Hfit]]]|].
  exact (append_moves_tailroom _ _ scenario_config_ok Hwt Hinv Hfit).
Defined.

Lemma tailroom_wraps_witness :
  let b := byte_buffer_t_size scenario_memory 1500 in
  (config_ok /\ well_typed b /\ sizeof_buffer < msg b + N_bytes b) /\
  get_tailroom b = 2 ^ 32 - (msg b + N_bytes b - sizeof_buffer) /\
  0 < get_tailroom b.
Proof.
  cbv zeta.
  assert (Hwt : well_typed (byte_buffer_t_size scenario_memory 1500)) by typed.
  assert (Hover : sizeof_buffer
                  < msg (byte_buffer_t_size scenario_memory 1500)
                    + N_bytes (byte_buffer_t_size scenario_memory 1500))
    by evaluate.
  split; [split; [exact scenario_config_ok | split; [exact Hwt | exact Hover]]|].
  exact (tailroom_wraps_when_overfull _ scenario_config_ok Hwt Hover).
Defined.

Lemma span_within_array_witness :
  let b := store_members (byte_buffer_t_default scenario_memory)
             100 (replicate 1500 Byte.xaa) 60 7 in
  well_typed b /\
  (length (valid_bytes b) = Z.to_nat (snd (make_span b)) <-> invariant b) /\
  fst (make_span b) = data b /\
  end_ b - begin b = size b.
Proof.
  cbv zeta.
  assert (Hwt : well_typed (store_members (byte_buffer_t_default scenario_memory)
                              100 (replicate 1500 Byte.xaa) 60 7)) by typed.
  split; [exact Hwt|].
  exact (span_within_array _ Hwt).
Defined.

Lemma copy_leaves_margins_witness :
  let this := byte_buffer_t_default scenario_memory in
  let buf := store_members (byte_buffer_t_default scenario_memory)
               100 (replicate 1500 Byte.xaa) 60 7 in
  let c := byte_buffer_t_copy_body scenario_memory buf in
  let c' := assign_from_body this buf in
  (well_typed buf /\
   byte_buffer_t_copy scenario_memory buf = Done c /\
   assign_from this buf = Done c') /\
  (forall i, (i < Z.to_nat SRSLTE_BUFFER_HEADER_OFFSET)%nat ->
     buffer c !! i = scenario_memory !! i /\ buffer c' !! i = buffer this !! i) /\
  (forall i,
     (Z.to_nat SRSLTE_BUFFER_HEADER_OFFSET + Z.to_nat (N_bytes buf) <= i)%nat ->
     buffer c !! i = scenario_memory !! i /\ buffer c' !! i = buffer this !! i) /\
  length (buffer c) = length scenario_memory /\
  length (buffer c') = length (buffer this).
Proof.
  cbv zeta.
  set (this := byte_buffer_t_default scenario_memory).
  set (buf := store_members this 100 (replicate 1500 Byte.xaa) 60 7).
  assert (Hwt : well_typed buf) by typed.
  assert (Hc : byte_buffer_t_copy scenario_memory buf
               = Done (byte_buffer_t_copy_body scenario_memory buf))
    by (apply copy_Done; evaluate).
  assert (Hc' : assign_from this buf = Done (assign_from_body this buf))
    by (apply assign_Done; evaluate).
  split; [split; [exact Hwt | split; [exact Hc | exact Hc']]|].
  exact (copy_leaves_margins scenario_memory this buf _ _ Hwt Hc Hc').
Defined.

Lemma append_chunks_witness :
  let b := byte_buffer_t_default scenario_memory in
  let xs := [[Byte.x01; Byte.x02]; []; [Byte.x03]] in
  (config_ok /\ well_typed b /\ invariant b /\
   Z.of_nat (length (concat xs)) <= get_tailroom b) /\
  exists r,
    append_all b xs = Done r /\
    append_bytes b (concat xs) = Done r /\
    valid_bytes r = valid_bytes b ++ concat xs /\
    N_bytes r = N_bytes b + Z.of_nat (length (concat xs)) /\
    invariant r.
Proof.
  cbv zeta.
  assert (Hwt : well_typed (byte_buffer_t_default scenario_memory)) by typed.
  assert (Hinv : invariant (byte_buffer_t_default scenario_memory))
    by (split; evaluate).
  assert (Hfit : Z.of_nat (length (concat [[Byte.x01; Byte.x02]; []; [Byte.x03]]))
                 <= get_tailroom (byte_buffer_t_default scenario_memory))
    by evaluate.
  split; [split; [exact scenario_config_ok
                 | split; [exact Hwt | split; [exact Hinv | exact Hfit]]]|].
  exact (append_chunks _ _ scenario_config_ok Hwt Hinv Hfit).
Defined.

Lemma latency_monotone_witness :
  let t := latency.set_timestamp_at 500 latency.init in
  (0 < clock_ticks_per_us /\ 1500 <= 2500 /\
   is_int64 (1500 - tp t) /\ is_int64 (2500 - tp t)) /\
  latency.get_latency_us 1500 t <= latency.get_latency_us 2500 t /\
  (tp t <= 1500 -> 0 <= latency.get_latency_us 1500 t).
Proof.
  cbv zeta.
  assert (Hticks : 0 < clock_ticks_per_us) by evaluate.
  assert (Hnow : 1500 <= 2500) by lia.
  assert (H1 : is_int64 (1500 - tp (latency.set_timestamp_at 500 latency.init)))
    by (split; evaluate).
  assert (H2 : is_int64 (2500 - tp (latency.set_timestamp_at 500 latency.init)))
    by (split; evaluate).
  split; [split; [exact Hticks | split; [exact Hnow | split; [exact H1 | exact H2]]]|].
  exact (latency_monotone _ 1500 2500 Hticks Hnow H1 H2).
Defined.

Lemma bit_copy_keeps_bits_witness :
  let mem := replicate (Z.to_nat 12000) Byte.x00 in
  let this := bit_buffer.bit_buffer_t_default mem in
  let buf := bit_buffer.Build_bit_buffer_t 5 (replicate (Z.to_nat 12000) Byte.x01) 10 in
  (config_ok /\ bit_buffer.well_typed this /\ bit_buffer.well_typed buf /\
   bit_buffer.invariant buf /\
   bit_buffer.N_bits buf <= bit_buffer.sizeof_buffer - SRSLTE_BUFFER_HEADER_OFFSET) /\
  (exists c,
     bit_buffer.bit_buffer_t_copy mem buf = Done c /\
     bit_buffer.N_bits c = bit_buffer.N_bits buf /\
     bit_buffer.valid_bits c = bit_buffer.valid_bits buf /\
     bit_buffer.get_headroom c = SRSLTE_BUFFER_HEADER_OFFSET /\
     bit_buffer.invariant c) /\
  (exists c,
     bit_buffer.assign_from this buf = Done c /\
     bit_buffer.N_bits c = bit_buffer.N_bits buf /\
     bit_buffer.valid_bits c = bit_buffer.valid_bits buf /\
     bit_buffer.get_headroom c = SRSLTE_BUFFER_HEADER_OFFSET /\
     bit_buffer.invariant c).
Proof.
  cbv zeta.
  set (mem := replicate (Z.to_nat 12000) Byte.x00).
  set (this := bit_buffer.bit_buffer_t_default mem).
  set (buf := bit_buffer.Build_bit_buffer_t 5 _ 10).
  assert (Hmem : length mem = Z.to_nat bit_buffer.sizeof_buffer) by evaluate.
  assert (Hthis : bit_buffer.well_typed this)
    by (split; [evaluate | split; evaluate | split; evaluate]).
  assert (Hwt : bit_buffer.well_typed buf)
    by (split; [evaluate | split; evaluate | split; evaluate]).
  assert (Hinv : bit_buffer.invariant buf) by (split; evaluate).
  assert (Hfit : bit_buffer.N_bits buf
                 <= bit_buffer.sizeof_buffer - SRSLTE_BUFFER_HEADER_OFFSET)
    by evaluate.
  split; [split; [exact scenario_config_ok | split; [exact Hthis
           | split; [exact Hwt | split; [exact Hinv | exact Hfit]]]]|].
  exact (bit_copy_keeps_bits mem this buf scenario_config_ok Hmem Hthis Hwt Hinv Hfit).
Defined.

Lemma bit_clear_resets_witness :
  let mem := replicate 16 Byte.x00 in
  let b := bit_buffer.Build_bit_buffer_t 5 (replicate 16 Byte.x01) 10 in
  config_ok /\
  (bit_buffer.valid_bits (bit_buffer.bit_buffer_t_default mem) = [] /\
   bit_buffer.get_headroom (bit_buffer.bit_buffer_t_default mem)
     = SRSLTE_BUFFER_HEADER_OFFSET /\
   bit_buffer.invariant (bit_buffer.bit_buffer_t_default mem)) /\
  (bit_buffer.N_bits (bit_buffer.clear b) = 0 /\
   bit_buffer.valid_bits (bit_buffer.clear b) = [] /\
   bit_buffer.get_headroom (bit_buffer.clear b) = SRSLTE_BUFFER_HEADER_OFFSET /\
   bit_buffer.buffer (bit_buffer.clear b) = bit_buffer.buffer b /\
   bit_buffer.invariant (bit_buffer.clear b)).
Proof.
  cbv zeta. split; [exact scenario_config_ok|].
  exact (bit_clear_resets _ _ scenario_config_ok).
Defined.

End scenario_more.
